(** * Fulcrum / Protocol 402: the trading front-end (src/app/page.tsx)

    A shallow embedding of the parts of the Next.js page that carry logic:
    the AMM price formula, the position poller [fetchPositions], the
    market-statistics effect, [handleClosePosition] and [handleTrade].

    Conventions used throughout.
    - A TypeScript [number] that enters price or amount arithmetic is an exact
      rational ([Q]); rounding of IEEE doubles is not part of the model.
      A division whose divisor is a run-time value is partial ([js_div]):
      it yields [None] exactly where JavaScript yields a non-finite value.
      Where rounding decides a property, the price formula is also given in
      binary64 ([calculateAMMPrices_f64]).
    - A [number] that is an identifier or a loop counter is a [Z].
    - A [uint256] read from the contract (an ethers [bigint]) is an [N].
    - A call that may throw or reject returns an [option]; [None] is the throw.
    - A JS object used as a dictionary is a [gmap]. *)

From Stdlib Require Import QArith Qround Qabs Lqa Lia ZArith NArith Ascii String.
From Stdlib Require Import Sorting.Sorted.
From Stdlib Require Import PrimFloat.
From stdpp Require Import gmap strings list fin_maps.

Local Open Scope string_scope.

(** ** Numbers *)

(** [a / b] for a divisor that is only known at run time. *)
Definition js_div (a b : Q) : option Q :=
  if Qeq_bool b 0 then None else Some (a / b)%Q.

(** [Number(x)] for a [bigint] [x]. *)
Definition Number_of_bigint (x : N) : Q := inject_Z (Z.of_N x).

(** [Number(ethers.formatUnits(x, 6))]: [x] base units read with six
    decimals. *)
Definition formatUnits6 (x : N) : Q := (inject_Z (Z.of_N x) / 1000000)%Q.

(** ** Smart contract configuration and mock data *)

Definition CONTRACT_ADDRESS : string := "0x2a3895f00315013a7cBc8fF50D4ac8823B58d88f".

Record Market := mkMarket {
  market_id : Z;
  title : string;
  image : string;
  volume : string;
  chance : Q;
  category : string
}.

Definition MARKETS : list Market := [
  mkMarket 1 "Will SpaceX Starship reach orbit in 2025?"
    "https://images.unsplash.com/photo-1517976487492-5750f3195933?q=80&w=1000&auto=format&fit=crop"
    "$4.2M" 78 "Science";
  mkMarket 2 "Fed Interest Rate Decision: Cut in December?"
    "https://images.unsplash.com/photo-1611974765270-ca1258634369?q=80&w=1000&auto=format&fit=crop"
    "$12.5M" 42 "Economics";
  mkMarket 3 "Bitcoin to break $100k before Q3?"
    "https://images.unsplash.com/photo-1518546305927-5a555bb7020d?q=80&w=1000&auto=format&fit=crop"
    "$89.1M" 65 "Crypto";
  mkMarket 4 "Apple to announce foldable iPhone this year?"
    "https://images.unsplash.com/photo-1510557880182-3d4d3cba35a5?q=80&w=1000&auto=format&fit=crop"
    "$1.8M" 12 "Tech";
  mkMarket 5 "Who will win the 2026 World Cup?"
    "https://images.unsplash.com/photo-1522770179533-24471fcdba45?q=80&w=1000&auto=format&fit=crop"
    "$5.6M" 18 "Sports";
  mkMarket 6 "GPT-5 release date before June 2025?"
    "https://images.unsplash.com/photo-1677442136019-21780ecad995?q=80&w=1000&auto=format&fit=crop"
    "$3.4M" 88 "AI"
].

(** [MARKETS.find(m => m.title === marketId)] *)
Definition find_market (marketId : string) : option Market :=
  List.find (fun m => String.eqb (title m) marketId) MARKETS.

(** The tuple returned by the contract's [getPosition]. *)
Record ChainPosition := mkChainPosition {
  c_marketId : string;
  c_trader : string;
  c_isLongYes : bool;
  c_entryPrice : N;
  c_collateral : N;
  c_leverage : N;
  c_openedAt : N;
  c_isOpen : bool
}.

(** The front-end's [Position] type. *)
Record Position := mkPosition {
  id : Z;
  marketId : string;
  trader : string;
  isLongYes : bool;
  entryPrice : Q;
  collateral : N;
  leverage : Q;
  openedAt : Q;
  isOpen : bool;
  currentPrice : option Q;
  pnl : option Q
}.

Record MarketStats := mkMarketStats {
  stats_id : Z;
  yesVolume : Q;
  noVolume : Q;
  yesPrice : Q;
  noPrice : Q;
  totalVolume : Q
}.

(** ** Price calculation using the AMM formula *)

Record Prices := mkPrices { p_yesPrice : Q; p_noPrice : Q }.

Definition amm_yesShares (yesVolume initialLiquidity : Q) : Q :=
  (initialLiquidity / 2 + yesVolume)%Q.

Definition amm_noShares (noVolume initialLiquidity : Q) : Q :=
  (initialLiquidity / 2 + noVolume)%Q.

Definition amm_total (yesVolume noVolume initialLiquidity : Q) : Q :=
  (amm_yesShares yesVolume initialLiquidity + amm_noShares noVolume initialLiquidity)%Q.

Definition calculateAMMPrices (yesVolume noVolume initialLiquidity : Q) : option Prices :=
  let yesShares := amm_yesShares yesVolume initialLiquidity in
  let noShares := amm_noShares noVolume initialLiquidity in
  let total := amm_total yesVolume noVolume initialLiquidity in
  y ← js_div noShares total;
  n ← js_div yesShares total;
  Some (mkPrices (y * 100)%Q (n * 100)%Q).

(** The default value of the [initialLiquidity] parameter. *)
Definition DEFAULT_INITIAL_LIQUIDITY : Q := 1000.

(** ** Wallet, provider and contract as the page sees them

    Every awaited call either resolves or rejects; the outcome is data. *)

Record Tx := mkTx {
  hash : string;
  wait : bool                       (* [await tx.wait()] resolves *)
}.

Record OpenPositionCall := mkOpenPositionCall {
  o_marketId : string;
  o_isLongYes : bool;
  o_entryPrice : Z;
  o_leverage : Q;
  o_value : Z
}.

Record Contract := mkContract {
  nextPositionId : option N;
  getPosition : Z → option ChainPosition;
  closePosition : Z → option Tx;
  openPosition : OpenPositionCall → option Tx
}.

Record Provider := mkProvider {
  getSigner : bool;                 (* [await provider.getSigner()] resolves *)
  contract_at : string → Contract   (* [new ethers.Contract(address, abi, _)] *)
}.

Record Wallet := mkWallet {
  address : string;
  switchChain : Z → bool;           (* [await wallet.switchChain(id)] resolves *)
  getEthereumProvider : option Provider
}.

Definition ARC_TESTNET : Z := 5042002.

(** ** Strings *)

Definition toLowerCase_ascii (c : ascii) : ascii :=
  let n := nat_of_ascii c in
  if (65 <=? n)%nat && (n <=? 90)%nat then ascii_of_nat (n + 32) else c.

Fixpoint toLowerCase (s : string) : string :=
  match s with
  | EmptyString => EmptyString
  | String c rest => String (toLowerCase_ascii c) (toLowerCase rest)
  end.

(** ** Execution paths *)

Inductive ExecutionPath := Spot | Perpetual.

(** ** fetchPositions *)

(** [market ? (pos.isLongYes ? market.chance : 100 - market.chance) : pos.entryPrice] *)
Definition static_price (side_yes : bool) (market : Market) : Q :=
  if side_yes then chance market else (100 - chance market)%Q.

Definition fetch_currentPrice (pos : ChainPosition) : Q :=
  match find_market (c_marketId pos) with
  | Some market => static_price (c_isLongYes pos) market
  | None => Number_of_bigint (c_entryPrice pos)
  end.

(** [pos.leverage === BigInt(1)] *)
Definition fetch_path (pos : ChainPosition) : ExecutionPath :=
  if (c_leverage pos =? 1)%N then Spot else Perpetual.

Definition fetch_pnl (pos : ChainPosition) (currentPrice : Q) : Q :=
  match fetch_path pos with
  | Spot =>
      ((currentPrice - Number_of_bigint (c_entryPrice pos)) / 100)%Q
  | Perpetual =>
      let collateralUSDC := formatUnits6 (c_collateral pos) in
      (((currentPrice - Number_of_bigint (c_entryPrice pos)) / 100)
         * collateralUSDC * Number_of_bigint (c_leverage pos))%Q
  end.

(** The record pushed onto [userPositions] for index [i]. *)
Definition to_Position (i : Z) (pos : ChainPosition) : Position :=
  let currentPrice := fetch_currentPrice pos in
  let pnl := fetch_pnl pos currentPrice in
  {| id := i;
     marketId := c_marketId pos;
     trader := c_trader pos;
     isLongYes := c_isLongYes pos;
     entryPrice := Number_of_bigint (c_entryPrice pos);
     collateral := c_collateral pos;
     leverage := Number_of_bigint (c_leverage pos);
     openedAt := Number_of_bigint (c_openedAt pos);
     isOpen := c_isOpen pos;
     currentPrice := Some currentPrice;
     pnl := Some pnl |}.

(** One iteration of the loop; [None] is "nothing pushed" (the position does
    not exist, belongs to someone else, or is closed). *)
Definition fetch_one (wallet : Wallet) (contract : Contract) (i : Z) : option Position :=
  pos ← getPosition contract i;
  if String.eqb (toLowerCase (c_trader pos)) (toLowerCase (address wallet)) && c_isOpen pos
  then Some (to_Position i pos)
  else None.

(** The indices visited by [for (let i = 1; i < Number(nextId); i++)]. *)
Definition position_ids (nextId : N) : list Z := seqZ 1 (Z.of_N nextId - 1).

(** The body of the outer [try]: [None] when the provider or
    [nextPositionId] throws. *)
Definition fetch_attempt (wallet : Wallet) : option (list Position) :=
  provider ← getEthereumProvider wallet;
  let contract := contract_at provider CONTRACT_ADDRESS in
  nextId ← nextPositionId contract;
  Some (omap (fetch_one wallet contract) (position_ids nextId)).

(** The new value of the [positions] state; [positions] is its old value,
    kept when the outer [try] catches. *)
Definition fetchPositions (wallets : list Wallet) (positions : list Position) : list Position :=
  match wallets with
  | wallet :: _ => default positions (fetch_attempt wallet)
  | [] => []
  end.

(** ** Component state and the handler monad

    The part of the [Home] component's state that the handlers touch, with a
    log of the steps of [handleClosePosition] in program order. A handler is
    a state transformer that may throw: [None] is a pending exception. *)

Inductive NotificationType := success | error.

Inductive Message :=
  | PositionClosed (realizedPnl : Q)  (* Position closed! Realized PnL: ... *)
  | FailedToClose.                    (* Failed to close position *)

Record Notification := mkNotification {
  message : Message;
  type : NotificationType
}.

Inductive Event :=
  | TxSent (positionId : Z)
  | TxConfirmed (positionId : Z)
  | PositionRemoved (positionId : Z)
  | FetchPositionsStarted
  | ErrorLogged.

Record UIState := mkUIState {
  positions : list Position;
  closingPositionId : option Z;
  marketStats : gmap Z MarketStats;
  notification : option Notification;
  trace : list Event
}.

Definition Handler (A : Type) : Type := UIState → option A * UIState.

#[local] Instance Handler_ret : MRet Handler := λ A x st, (Some x, st).

#[local] Instance Handler_bind : MBind Handler := λ A B f m st,
  match m st with
  | (Some x, st') => f x st'
  | (None, st') => (None, st')
  end.

(** The result of an awaited call enters the handler. *)
Definition await {A} (outcome : option A) : Handler A := λ st, (outcome, st).

Definition await_ok (resolved : bool) : Handler unit :=
  λ st, ((if resolved then Some tt else None), st).

Definition gets {A} (f : UIState → A) : Handler A := λ st, (Some (f st), st).

Definition modify (f : UIState → UIState) : Handler unit := λ st, (Some tt, f st).

Definition try_catch_finally (body catch finally : Handler unit) : Handler unit := λ st,
  let '(r, st1) := body st in
  let '(r', st2) := match r with Some _ => (Some tt, st1) | None => catch st1 end in
  let '(r'', st3) := finally st2 in
  (match r'' with Some _ => r' | None => None end, st3).

Definition setClosingPositionId (v : option Z) : Handler unit :=
  modify (λ st, mkUIState (positions st) v (marketStats st) (notification st) (trace st)).

Definition setPositions (f : list Position → list Position) : Handler unit :=
  modify (λ st, mkUIState (f (positions st)) (closingPositionId st) (marketStats st)
                          (notification st) (trace st)).

(** [showNotification]: the banner is set; its removal three seconds later is
    a timer and not part of the handler. *)
Definition showNotification (m : Message) (t : NotificationType) : Handler unit :=
  modify (λ st, mkUIState (positions st) (closingPositionId st) (marketStats st)
                          (Some (mkNotification m t)) (trace st)).

Definition emit (e : Event) : Handler unit :=
  modify (λ st, mkUIState (positions st) (closingPositionId st) (marketStats st)
                          (notification st) (trace st ++ [e])).

(** ** handleClosePosition *)

Definition close_currentPrice (stats : gmap Z MarketStats) (position : Position) : Q :=
  match find_market (marketId position) with
  | Some market =>
      match stats !! market_id market with
      | Some s => if isLongYes position then yesPrice s else noPrice s
      | None => static_price (isLongYes position) market
      end
  | None => entryPrice position
  end.

(** [position.leverage === 1] *)
Definition close_path (position : Position) : ExecutionPath :=
  if Qeq_bool (leverage position) 1 then Spot else Perpetual.

Definition close_pnl (position : Position) (currentPrice : Q) : Q :=
  match close_path position with
  | Spot =>
      let collateralUSDC := formatUnits6 (collateral position) in
      let priceDiffPercent := ((currentPrice - entryPrice position) / 100)%Q in
      (collateralUSDC * priceDiffPercent)%Q
  | Perpetual =>
      let collateralUSDC := formatUnits6 (collateral position) in
      (((currentPrice - entryPrice position) / 100) * collateralUSDC * leverage position)%Q
  end.

Definition close_body (wallet : Wallet) (position : Position) (positionId : Z) : Handler unit :=
  await_ok (switchChain wallet ARC_TESTNET);;
  provider ← await (getEthereumProvider wallet);
  await_ok (getSigner provider);;
  let contract := contract_at provider CONTRACT_ADDRESS in
  tx ← await (closePosition contract positionId);
  emit (TxSent positionId);;
  await_ok (wait tx);;
  emit (TxConfirmed positionId);;
  stats ← gets marketStats;
  let currentPrice := close_currentPrice stats position in
  let pnl := close_pnl position currentPrice in
  showNotification (PositionClosed pnl) (if Qle_bool 0 pnl then success else error);;
  setPositions (List.filter (λ p, negb (id p =? positionId)%Z));;
  emit (PositionRemoved positionId);;
  emit FetchPositionsStarted.

Definition close_catch : Handler unit :=
  emit ErrorLogged;;
  showNotification FailedToClose error.

Definition close_finally : Handler unit := setClosingPositionId None.

Definition handleClosePosition (wallets : list Wallet) (positionId : Z) (st : UIState) : UIState :=
  match wallets with
  | [] => st
  | wallet :: _ =>
      match List.find (λ p, (id p =? positionId)%Z) (positions st) with
      | None => st
      | Some position =>
          snd ((setClosingPositionId (Some positionId);;
                try_catch_finally (close_body wallet position positionId)
                                  close_catch close_finally) st)
      end
  end.

(** ** Market statistics from positions (the [useEffect] on [positions]) *)

(** The [forEach] that adds each position's collateral to [yesVolume] or
    [noVolume]; the pair is [(yesVolume, noVolume)]. *)
Definition add_volume (acc : Q * Q) (pos : Position) : Q * Q :=
  let volumeUSDC := formatUnits6 (collateral pos) in
  if isLongYes pos then ((fst acc + volumeUSDC)%Q, snd acc)
  else (fst acc, (snd acc + volumeUSDC)%Q).

Definition market_positions (positions : list Position) (market : Market) : list Position :=
  List.filter (λ p, String.eqb (marketId p) (title market) && isOpen p) positions.

Definition market_volumes (positions : list Position) (market : Market) : Q * Q :=
  fold_left add_volume (market_positions positions market) (0%Q, 0%Q).

Definition market_stats (positions : list Position) (market : Market) : option MarketStats :=
  let '(yesVolume, noVolume) := market_volumes positions market in
  prices ← calculateAMMPrices yesVolume noVolume DEFAULT_INITIAL_LIQUIDITY;
  Some {| stats_id := market_id market;
          yesVolume := yesVolume;
          noVolume := noVolume;
          yesPrice := p_yesPrice prices;
          noPrice := p_noPrice prices;
          totalVolume := (yesVolume + noVolume)%Q |}.

(** The value handed to [setMarketStats]. [None] would be a non-finite
    price; [computeMarketStats_total] shows that it does not occur. *)
Definition computeMarketStats (positions : list Position) : option (gmap Z MarketStats) :=
  fold_left
    (λ acc market,
       stats ← acc;
       entry ← market_stats positions market;
       Some (<[market_id market := entry]> stats))
    MARKETS (Some ∅).

(** ** ExpandedMarketView: prices shown and [handleTrade] *)

Inductive Side := YES | NO.

(** [marketStats?.yesPrice ?? market.chance] *)
Definition view_yesPrice (market : Market) (stats : option MarketStats) : Q :=
  match stats with Some s => yesPrice s | None => chance market end.

(** [marketStats?.noPrice ?? (100 - market.chance)] *)
Definition view_noPrice (market : Market) (stats : option MarketStats) : Q :=
  match stats with Some s => noPrice s | None => (100 - chance market)%Q end.

(** What [x.toFixed(6)] prints: a decimal with six fraction digits, held as
    the integer it denotes in millionths, or exponent notation from 1e21 on. *)
Inductive DecimalString :=
  | Fixed6 (millionths : Z)
  | Exponential.

(** Nearest millionth, ties to the larger magnitude, sign put back after. *)
Definition toFixed6 (x : Q) : DecimalString :=
  if Qle_bool (inject_Z (10 ^ 21)) (Qabs x) then Exponential
  else if Qle_bool 0 x then Fixed6 (Qfloor (x * 1000000 + 1 / 2))
  else Fixed6 (- Qfloor (- x * 1000000 + 1 / 2)).

(** [ethers.parseUnits(s, 6)]; exponent notation is rejected with a throw. *)
Definition parseUnits6 (s : DecimalString) : option Z :=
  match s with
  | Fixed6 n => Some n
  | Exponential => None
  end.

(** [leverage > 1] *)
Definition trade_path (leverage : Q) : ExecutionPath :=
  if Qle_bool leverage 1 then Spot else Perpetual.

Definition trade_collateralAmount (leverage amount : Q) : option Z :=
  match trade_path leverage with
  | Perpetual => parseUnits6 (toFixed6 amount)
  | Spot => parseUnits6 (toFixed6 amount)
  end.

Inductive TradeResult :=
  | LoginRequested
  | NoWalletConnected
  | TransactionFailed
  | PositionOpened (call : OpenPositionCall) (txHash : string).

Section Trade.

(** The host's [parseFloat]; [None] is NaN. *)
Variable parseFloat : string → option Q.

(** [parseFloat(tradeAmount) || 10] *)
Definition trade_amount (tradeAmount : string) : Q :=
  match parseFloat tradeAmount with
  | Some a => if Qeq_bool a 0 then 10%Q else a
  | None => 10%Q
  end.

(** The arguments of the [openPosition] call, if the handler gets as far
    as making it. *)
Definition trade_request (market : Market) (stats : option MarketStats)
    (leverage : Q) (tradeAmount : string) (side : Side) : option OpenPositionCall :=
  let amount := trade_amount tradeAmount in
  collateralAmount ← trade_collateralAmount leverage amount;
  let entryPrice :=
    Qfloor (match side with
            | YES => view_yesPrice market stats
            | NO => view_noPrice market stats
            end) in
  Some {| o_marketId := title market;
          o_isLongYes := match side with YES => true | NO => false end;
          o_entryPrice := entryPrice;
          o_leverage := leverage;
          o_value := collateralAmount |}.

Definition handleTrade (authenticated : bool) (wallets : list Wallet)
    (market : Market) (stats : option MarketStats)
    (leverage : Q) (tradeAmount : string) (side : Side) : TradeResult :=
  if negb authenticated then LoginRequested
  else match wallets with
       | [] => NoWalletConnected
       | wallet :: _ =>
           let attempt :=
             guard (switchChain wallet ARC_TESTNET = true);;
             provider ← getEthereumProvider wallet;
             guard (getSigner provider = true);;
             let contract := contract_at provider CONTRACT_ADDRESS in
             call ← trade_request market stats leverage tradeAmount side;
             tx ← openPosition contract call;
             guard (wait tx = true);;
             Some (PositionOpened call (hash tx)) in
           default TransactionFailed attempt
       end.

End Trade.

(** ** The monitoring agent *)

Module Agent.

(** Modelled from the spec: the agent's source (backend/agent.py) is not
    among the files; the spec gives its rule as "poll positions, compute
    PnL = (currentPrice - entryPrice)/100 x collateral x leverage, and call
    a single settlement function when PnL < -80%". This is the loss
    threshold, in percent of collateral. *)
Definition LIQUIDATION_THRESHOLD : Q := (-80)%Q.

(** Modelled from the spec: the unrealized PnL the agent computes against
    the oracle price [currentPrice], by the spec's formula. *)
Definition unrealized_pnl (currentPrice : Q) (pos : ChainPosition) : Q :=
  ((currentPrice - Number_of_bigint (c_entryPrice pos)) / 100
     * formatUnits6 (c_collateral pos) * Number_of_bigint (c_leverage pos))%Q.

(** Modelled from the spec: "PnL < -80%", the PnL measured against the
    position's collateral. *)
Definition breached (currentPrice : Q) (pos : ChainPosition) : bool :=
  negb (Qle_bool (LIQUIDATION_THRESHOLD / 100 * formatUnits6 (c_collateral pos))
                 (unrealized_pnl currentPrice pos)).

(** Modelled from the spec: the one call the agent makes, the contract's
    [settlePosition]. *)
Inductive ContractCall := settlePosition (positionId : Z).

(** Modelled from the spec: the check of one position; the agent watches
    open leveraged positions only. *)
Definition check_liquidation (oracle : ChainPosition → Q)
    (entry : Z * ChainPosition) : option ContractCall :=
  let '(positionId, pos) := entry in
  if c_isOpen pos && (1 <? c_leverage pos)%N && breached (oracle pos) pos
  then Some (settlePosition positionId)
  else None.

(** Modelled from the spec: one polling round over the contract's
    positions, giving the calls made. *)
Definition poll (oracle : ChainPosition → Q)
    (chain : list (Z * ChainPosition)) : list ContractCall :=
  omap (check_liquidation oracle) chain.

End Agent.


(** ** The specification's formulas

    Written after the specification's wording, to be compared with the
    definitions above. *)

(** yesPrice = ((initialLiquidity/2 + noVolume) /
                (initialLiquidity + yesVolume + noVolume)) x 100 *)
Definition spec_yesPrice (yesVolume noVolume initialLiquidity : Q) : option Q :=
  (λ q, q * 100)%Q <$>
    js_div (initialLiquidity / 2 + noVolume) (initialLiquidity + yesVolume + noVolume).

(** noPrice = ((initialLiquidity/2 + yesVolume) /
               (initialLiquidity + yesVolume + noVolume)) x 100 *)
Definition spec_noPrice (yesVolume noVolume initialLiquidity : Q) : option Q :=
  (λ q, q * 100)%Q <$>
    js_div (initialLiquidity / 2 + yesVolume) (initialLiquidity + yesVolume + noVolume).

(** PnL = (currentPrice - entryPrice)/100 x collateral x leverage, the
    collateral in USDC at six decimals. *)
Definition spec_pnl (currentPrice entryPrice : Q) (collateral : N) (leverage : Q) : Q :=
  ((currentPrice - entryPrice) / 100 * formatUnits6 collateral * leverage)%Q.

(** The sum of the collateral, in USDC, over a list of positions. *)
Definition sum_collateral (ps : list Position) : Q :=
  fold_right (λ p acc, formatUnits6 (collateral p) + acc)%Q 0%Q ps.

(** The open positions on [market] that are long YES ([side_yes = true]) or
    long NO ([side_yes = false]). *)
Definition open_on_side (positions : list Position) (market : Market) (side_yes : bool)
  : list Position :=
  List.filter
    (λ p, String.eqb (marketId p) (title market) && isOpen p && Bool.eqb (isLongYes p) side_yes)
    positions.

(** Every awaited step of a close resolves: the chain switch, the provider,
    the signer, the sending of the [closePosition] transaction and its
    confirmation. *)
Definition close_confirmed (wallet : Wallet) (positionId : Z) : bool :=
  switchChain wallet ARC_TESTNET &&
  match getEthereumProvider wallet with
  | Some provider =>
      getSigner provider &&
      match closePosition (contract_at provider CONTRACT_ADDRESS) positionId with
      | Some tx => wait tx
      | None => false
      end
  | None => false
  end.

(** ** Sample data

    A contract holding one spot and one leveraged position of the same
    trader, and that trader's wallet. *)

Definition sample_spot : ChainPosition :=
  mkChainPosition "Bitcoin to break $100k before Q3?" "0xAbC" true 50 10000000 1 1700000000 true.

Definition sample_leveraged : ChainPosition :=
  mkChainPosition "Bitcoin to break $100k before Q3?" "0xAbC" false 40 20000000 3 1700000100 true.

Definition sample_contract : Contract :=
  mkContract (Some 3%N)
    (λ i, if (i =? 1)%Z then Some sample_spot
          else if (i =? 2)%Z then Some sample_leveraged
          else None)
    (λ _, Some (mkTx "0x01" true))
    (λ _, Some (mkTx "0x02" true)).

Definition sample_wallet : Wallet :=
  mkWallet "0xabc" (λ _, true) (Some (mkProvider true (λ _, sample_contract))).

(** A position on a market that is not listed, its trader's wallet, and a
    wallet whose chain switch is rejected. *)

Definition sample_unlisted : ChainPosition :=
  mkChainPosition "No such market" "0xabc" true 30 5000000 2 1700000200 true.

Definition sample_wallet_unlisted : Wallet :=
  mkWallet "0xabc" (λ _, true)
    (Some (mkProvider true
             (λ _, mkContract (Some 2%N)
                     (λ i, if (i =? 1)%Z then Some sample_unlisted else None)
                     (λ _, None) (λ _, None)))).

Definition sample_wallet_rejecting : Wallet :=
  mkWallet "0xabc" (λ _, false) (Some (mkProvider true (λ _, sample_contract))).

(** A spot position on the NO side, and its trader's wallet. *)

Definition sample_spot_no : ChainPosition :=
  mkChainPosition "Bitcoin to break $100k before Q3?" "0xabc" false 30 10000000 1 1700000300 true.

Definition sample_wallet_spot_no : Wallet :=
  mkWallet "0xabc" (λ _, true)
    (Some (mkProvider true
             (λ _, mkContract (Some 2%N)
                     (λ i, if (i =? 1)%Z then Some sample_spot_no else None)
                     (λ _, Some (mkTx "0x03" true)) (λ _, None)))).

(** ** The price formula in binary64

    [calculateAMMPrices] as the page runs it, on IEEE doubles: the same
    operations in the same order, each one rounded. *)

Record PricesF64 := mkPricesF64 { f_yesPrice : float; f_noPrice : float }.

Definition calculateAMMPrices_f64 (yesVolume noVolume initialLiquidity : float) : PricesF64 :=
  let yesShares := (initialLiquidity / 2 + yesVolume)%float in
  let noShares := (initialLiquidity / 2 + noVolume)%float in
  let total := (yesShares + noShares)%float in
  let yesPrice := ((noShares / total) * 100)%float in
  let noPrice := ((yesShares / total) * 100)%float in
  mkPricesF64 yesPrice noPrice.

(** ** Percentages as they are printed *)

(** What [x.toFixed(1)] prints: a decimal with one fraction digit, held as
    the integer it denotes in tenths, or exponent notation from 1e21 on. *)
Inductive PercentString :=
  | Tenths (tenths : Z)
  | ExponentForm.

(** Nearest tenth, ties to the larger magnitude, sign put back after. *)
Definition toFixed1 (x : Q) : PercentString :=
  if Qle_bool (inject_Z (10 ^ 21)) (Qabs x) then ExponentForm
  else if Qle_bool 0 x then Tenths (Qfloor (x * 10 + 1 / 2))
  else Tenths (- Qfloor (- x * 10 + 1 / 2)).

(** The two percentages printed on a market's card and in its expanded
    view: [yesPrice.toFixed(1)] and [noPrice.toFixed(1)]. *)
Definition shown_percentages (market : Market) (stats : option MarketStats)
  : PercentString * PercentString :=
  (toFixed1 (view_yesPrice market stats), toFixed1 (view_noPrice market stats)).

(** ** Further parts of the page *)

(** The list of the Sell tab:
    [positions.filter(p => p.marketId === market.title)] *)
Definition sell_positions (positions : list Position) (market : Market) : list Position :=
  List.filter (λ p, String.eqb (marketId p) (title market)) positions.



(** [ethers.formatEther(x)], as a number: [x] base units read with eighteen
    decimals. *)
Definition formatEther (x : N) : Q := (inject_Z (Z.of_N x) / inject_Z (10 ^ 18))%Q.

(** The balance effect: the new value of the [balance] state, given the
    provider's [getBalance]; [balance] is its old value, kept when the [try]
    catches. *)
Definition fetchBalance (getBalance : Provider → string → option N)
    (wallets : list Wallet) (balance : option Q) : option Q :=
  match wallets with
  | wallet :: _ =>
      let attempt :=
        provider ← getEthereumProvider wallet;
        balanceWei ← getBalance provider (address wallet);
        Some (formatEther balanceWei) in
      match attempt with
      | Some balanceUsdc => Some balanceUsdc
      | None => balance
      end
  | [] => None
  end.

(** The chart of the market view. *)
Definition chartWidth : Q := 600.
Definition chartHeight : Q := 200.
Definition padding : Q := 20.

(** [Math.max] and [Math.min] over a non-empty spread. *)
Definition Math_max (first : Q) (rest : list Q) : Q :=
  fold_left (λ m v, if Qle_bool m v then v else m) rest first.

Definition Math_min (first : Q) (rest : list Q) : Q :=
  fold_left (λ m v, if Qle_bool v m then v else m) rest first.

(** The [(x, y)] pairs behind the [points] string. With no data the [map]
    runs over nothing. *)
Definition chart_points (chartData : list Q) : option (list (Q * Q)) :=
  match chartData with
  | [] => Some []
  | first :: rest =>
      let dataPoints := inject_Z (Z.of_nat (length chartData)) in
      stepX ← js_div (chartWidth - padding * 2)%Q (dataPoints - 1)%Q;
      let maxValue := Math_max first rest in
      let minValue := Math_min first rest in
      let range :=
        if Qeq_bool (maxValue - minValue) 0 then 1%Q else (maxValue - minValue)%Q in
      Some (imap (λ i value,
                    ((padding + inject_Z (Z.of_nat i) * stepX)%Q,
                     (chartHeight - padding
                      - ((value - minValue) / range) * (chartHeight - padding * 2))%Q))
                 chartData)
  end.

(** The [closePosition] transaction of a close was sent: every step up to
    and including the call resolved. *)
Definition close_sent (wallet : Wallet) (positionId : Z) : bool :=
  switchChain wallet ARC_TESTNET &&
  match getEthereumProvider wallet with
  | Some provider =>
      getSigner provider &&
      match closePosition (contract_at provider CONTRACT_ADDRESS) positionId with
      | Some _ => true
      | None => false
      end
  | None => false
  end.

(** A position that enters some market's statistics: it is open and its
    market is one of [MARKETS]. *)
Definition counted (p : Position) : bool :=
  isOpen p && match find_market (marketId p) with Some _ => true | None => false end.

(** * Properties *)

(** ** The AMM price formula *)

Section AMM.

Local Open Scope Q_scope.

Lemma js_div_defined (a b : Q) : ¬ b == 0 → js_div a b = Some (a / b).
Proof.
  intros Hb. unfold js_div.
  destruct (Qeq_bool b 0) eqn:E; [| reflexivity].
  apply Qeq_bool_eq in E. contradiction.
Qed.

Lemma js_div_undefined (a b : Q) : b == 0 → js_div a b = None.
Proof.
  intros Hb. unfold js_div.
  apply Qeq_bool_iff in Hb. now rewrite Hb.
Qed.

Lemma amm_total_sum (yv nv L : Q) : amm_total yv nv L == L + yv + nv.
Proof. unfold amm_total, amm_yesShares, amm_noShares. field. Qed.

Lemma amm_yesShares_default (yv : Q) :
  amm_yesShares yv DEFAULT_INITIAL_LIQUIDITY == 500 + yv.
Proof. unfold amm_yesShares, DEFAULT_INITIAL_LIQUIDITY. field. Qed.

Lemma amm_noShares_default (nv : Q) :
  amm_noShares nv DEFAULT_INITIAL_LIQUIDITY == 500 + nv.
Proof. unfold amm_noShares, DEFAULT_INITIAL_LIQUIDITY. field. Qed.

Lemma calculateAMMPrices_defined (yv nv L : Q) :
  ¬ amm_total yv nv L == 0 →
  calculateAMMPrices yv nv L =
    Some (mkPrices (amm_noShares nv L / amm_total yv nv L * 100)
                   (amm_yesShares yv L / amm_total yv nv L * 100)).
Proof.
  intros Ht. unfold calculateAMMPrices.
  rewrite !js_div_defined by assumption. reflexivity.
Qed.

Lemma calculateAMMPrices_undefined (yv nv L : Q) :
  amm_total yv nv L == 0 → calculateAMMPrices yv nv L = None.
Proof.
  intros Ht. unfold calculateAMMPrices.
  rewrite !js_div_undefined by assumption. reflexivity.
Qed.

Lemma amm_total_lower_bound (yv nv : Q) :
  0 <= yv → 0 <= nv → 1000 <= amm_total yv nv DEFAULT_INITIAL_LIQUIDITY.
Proof.
  intros Hy Hn. rewrite amm_total_sum. unfold DEFAULT_INITIAL_LIQUIDITY. lra.
Qed.

Lemma calculateAMMPrices_total_nonneg (yv nv : Q) :
  0 <= yv → 0 <= nv →
  is_Some (calculateAMMPrices yv nv DEFAULT_INITIAL_LIQUIDITY).
Proof.
  intros Hy Hn. rewrite calculateAMMPrices_defined; [eauto |].
  pose proof (amm_total_lower_bound yv nv Hy Hn). lra.
Qed.

(** A share that is positive and smaller than the total is priced strictly
    between 0 and 100. *)
Lemma share_price_bounds (share total : Q) :
  0 < share → share < total → 0 < share / total * 100 ∧ share / total * 100 < 100.
Proof.
  intros Hs Hlt.
  assert (Ht : 0 < total) by lra.
  assert (H0 : 0 < share / total) by (apply Qlt_shift_div_l; lra).
  assert (H1 : share / total < 1) by (apply Qlt_shift_div_r; lra).
  set (r := share / total) in *. split; lra.
Qed.

(** C3. With the default initial liquidity of 1000, [calculateAMMPrices]
    returns, for all volumes, the prices of the specification's formula:
    each side's price is the opposite side's shares over the total shares,
    times 100, with the initial liquidity split evenly between the sides. *)
Theorem calculateAMMPrices_formula (yesVolume noVolume : Q) :
  option_Forall2 Qeq
    (p_yesPrice <$> calculateAMMPrices yesVolume noVolume DEFAULT_INITIAL_LIQUIDITY)
    (spec_yesPrice yesVolume noVolume 1000)
  ∧ option_Forall2 Qeq
      (p_noPrice <$> calculateAMMPrices yesVolume noVolume DEFAULT_INITIAL_LIQUIDITY)
      (spec_noPrice yesVolume noVolume 1000).
Proof.
  pose proof (amm_total_sum yesVolume noVolume DEFAULT_INITIAL_LIQUIDITY) as Ht.
  unfold spec_yesPrice, spec_noPrice.
  destruct (Qeq_dec (amm_total yesVolume noVolume DEFAULT_INITIAL_LIQUIDITY) 0) as [Hz | Hnz].
  - rewrite calculateAMMPrices_undefined by assumption.
    rewrite !js_div_undefined by (rewrite <- Hz, Ht; reflexivity).
    split; constructor.
  - rewrite calculateAMMPrices_defined by assumption.
    assert (Hnz' : ¬ 1000 + yesVolume + noVolume == 0)
      by (intros E; apply Hnz; rewrite Ht; exact E).
    rewrite !js_div_defined by assumption.
    unfold amm_total, amm_yesShares, amm_noShares, DEFAULT_INITIAL_LIQUIDITY in *.
    split; constructor; simpl; field; lra.
Qed.

(** The two prices sum to 100 wherever the total of the shares is not
    zero. *)
Lemma calculateAMMPrices_sum_nonzero_total (yv nv L : Q) :
  ¬ amm_total yv nv L == 0 →
  ∃ prices, calculateAMMPrices yv nv L = Some prices
            ∧ p_yesPrice prices + p_noPrice prices == 100.
Proof.
  intros Hnz. eexists. split; [apply calculateAMMPrices_defined; assumption |].
  simpl. unfold amm_total in *. field. exact Hnz.
Qed.

(** C4. The pricing is constant-sum: for every positive initial liquidity
    and all volumes the function is given, which are sums of collateral
    and so never negative, the two prices are returned and sum exactly to
    100, over exact rational arithmetic. *)
Theorem calculateAMMPrices_constant_sum (yesVolume noVolume initialLiquidity : Q) :
  0 <= yesVolume → 0 <= noVolume → 0 < initialLiquidity →
  ∃ prices, calculateAMMPrices yesVolume noVolume initialLiquidity = Some prices
            ∧ p_yesPrice prices + p_noPrice prices == 100.
Proof.
  intros Hy Hn HL. apply calculateAMMPrices_sum_nonzero_total.
  rewrite amm_total_sum. lra.
Qed.

Lemma calculateAMMPrices_constant_sum_witness :
  ∃ prices, calculateAMMPrices 10 20 1000 = Some prices
            ∧ p_yesPrice prices + p_noPrice prices == 100.
Proof.
  apply (calculateAMMPrices_constant_sum 10 20 1000); vm_compute; discriminate || reflexivity.
Defined.

(** C8, as stated, fails in the doubles the page computes in: with no YES
    volume and a NO volume of 1e20 (one position of 10^26 base units) the
    shares round to the total and the YES price is exactly 100. *)
Lemma price_reaches_100_in_doubles :
  PrimFloat.leb 0 0 = true
  ∧ PrimFloat.leb 0 1e20 = true
  ∧ f_yesPrice (calculateAMMPrices_f64 0 1e20 1000) = 100%float
  ∧ PrimFloat.ltb (f_yesPrice (calculateAMMPrices_f64 0 1e20 1000)) 100 = false.
Proof. vm_compute. repeat split. Qed.

(** C8, amended. Over exact rational arithmetic, for non-negative volumes
    the denominator is at least the initial liquidity 1000, the division is
    defined, and both prices lie strictly between 0 and 100. *)
Theorem calculateAMMPrices_bounds (yesVolume noVolume : Q) :
  0 <= yesVolume → 0 <= noVolume →
  1000 <= amm_total yesVolume noVolume DEFAULT_INITIAL_LIQUIDITY
  ∧ ∃ prices,
      calculateAMMPrices yesVolume noVolume DEFAULT_INITIAL_LIQUIDITY = Some prices
      ∧ 0 < p_yesPrice prices ∧ p_yesPrice prices < 100
      ∧ 0 < p_noPrice prices ∧ p_noPrice prices < 100.
Proof.
  intros Hy Hn.
  pose proof (amm_total_lower_bound yesVolume noVolume Hy Hn) as Hlow.
  split; [exact Hlow |].
  eexists. split; [apply calculateAMMPrices_defined; lra |]. simpl.
  assert (Hys : 0 < amm_yesShares yesVolume DEFAULT_INITIAL_LIQUIDITY)
    by (rewrite amm_yesShares_default; lra).
  assert (Hns : 0 < amm_noShares noVolume DEFAULT_INITIAL_LIQUIDITY)
    by (rewrite amm_noShares_default; lra).
  destruct (share_price_bounds (amm_noShares noVolume DEFAULT_INITIAL_LIQUIDITY)
              (amm_total yesVolume noVolume DEFAULT_INITIAL_LIQUIDITY)) as [? ?];
    [assumption | unfold amm_total; lra |].
  destruct (share_price_bounds (amm_yesShares yesVolume DEFAULT_INITIAL_LIQUIDITY)
              (amm_total yesVolume noVolume DEFAULT_INITIAL_LIQUIDITY)) as [? ?];
    [assumption | unfold amm_total; lra |].
  auto.
Qed.

Lemma calculateAMMPrices_bounds_witness :
  1000 <= amm_total 10 20 DEFAULT_INITIAL_LIQUIDITY
  ∧ ∃ prices,
      calculateAMMPrices 10 20 DEFAULT_INITIAL_LIQUIDITY = Some prices
      ∧ 0 < p_yesPrice prices ∧ p_yesPrice prices < 100
      ∧ 0 < p_noPrice prices ∧ p_noPrice prices < 100.
Proof.
  apply (calculateAMMPrices_bounds 10 20); vm_compute; discriminate.
Defined.

End AMM.

(** ** fetchPositions *)

Section Fetch.

Local Open Scope Q_scope.

Lemma fetchPositions_attempt (wallet : Wallet) (rest : list Wallet)
    (old ps : list Position) :
  fetch_attempt wallet = Some ps → fetchPositions (wallet :: rest) old = ps.
Proof. intros H. unfold fetchPositions. now rewrite H. Qed.

(** Each element of a successful fetch is the image of one contract tuple
    of the connected trader, read at the element's own [id]. *)
Lemma fetch_attempt_elem (wallet : Wallet) (ps : list Position) (p : Position) :
  fetch_attempt wallet = Some ps → p ∈ ps →
  ∃ provider nextId pos,
    getEthereumProvider wallet = Some provider
    ∧ nextPositionId (contract_at provider CONTRACT_ADDRESS) = Some nextId
    ∧ (1 ≤ id p < Z.of_N nextId)%Z
    ∧ getPosition (contract_at provider CONTRACT_ADDRESS) (id p) = Some pos
    ∧ String.eqb (toLowerCase (c_trader pos)) (toLowerCase (address wallet)) = true
    ∧ c_isOpen pos = true
    ∧ p = to_Position (id p) pos.
Proof.
  unfold fetch_attempt. intros Hfetch Hin.
  destruct (getEthereumProvider wallet) as [provider |] eqn:Hprov; [| discriminate].
  simpl in Hfetch.
  destruct (nextPositionId (contract_at provider CONTRACT_ADDRESS)) as [nextId |] eqn:Hnext;
    [| discriminate].
  simpl in Hfetch. injection Hfetch as <-.
  apply list_elem_of_omap in Hin as (i & Hi & Hone).
  unfold position_ids in Hi. apply elem_of_seqZ in Hi.
  unfold fetch_one in Hone.
  destruct (getPosition (contract_at provider CONTRACT_ADDRESS) i) as [pos |] eqn:Hpos;
    [| discriminate].
  simpl in Hone.
  destruct (String.eqb (toLowerCase (c_trader pos)) (toLowerCase (address wallet))) eqn:Htr;
    [| discriminate].
  destruct (c_isOpen pos) eqn:Hopen; [| discriminate].
  simpl in Hone. injection Hone as <-. simpl.
  exists provider, nextId, pos. repeat split; try assumption; lia.
Qed.

Lemma Number_of_bigint_one (n : N) : Number_of_bigint n == 1 ↔ n = 1%N.
Proof.
  unfold Number_of_bigint. change 1 with (inject_Z 1).
  rewrite inject_Z_injective. lia.
Qed.

Lemma fetch_path_spot (pos : ChainPosition) :
  c_leverage pos = 1%N → fetch_path pos = Spot.
Proof. intros H. unfold fetch_path. now rewrite H. Qed.

Lemma fetch_path_perpetual (pos : ChainPosition) :
  c_leverage pos ≠ 1%N → fetch_path pos = Perpetual.
Proof.
  intros H. unfold fetch_path.
  destruct (N.eqb_spec (c_leverage pos) 1); [contradiction | reflexivity].
Qed.

(** C7. After a fetch that goes through, every position in the list is a
    contract tuple of the trader, read at the position's [id]: the eight
    tuple fields are copied (the [uint256] ones converted to numbers, the
    collateral kept as it is) and the only further fields are the derived
    [currentPrice] and [pnl]. *)
Theorem fetchPositions_copies_tuple (wallet : Wallet) (rest : list Wallet)
    (old : list Position) (p : Position) :
  is_Some (fetch_attempt wallet) →
  p ∈ fetchPositions (wallet :: rest) old →
  ∃ provider pos,
    getEthereumProvider wallet = Some provider
    ∧ getPosition (contract_at provider CONTRACT_ADDRESS) (id p) = Some pos
    ∧ marketId p = c_marketId pos
    ∧ trader p = c_trader pos
    ∧ isLongYes p = c_isLongYes pos
    ∧ entryPrice p = Number_of_bigint (c_entryPrice pos)
    ∧ collateral p = c_collateral pos
    ∧ leverage p = Number_of_bigint (c_leverage pos)
    ∧ openedAt p = Number_of_bigint (c_openedAt pos)
    ∧ isOpen p = c_isOpen pos
    ∧ currentPrice p = Some (fetch_currentPrice pos)
    ∧ pnl p = Some (fetch_pnl pos (fetch_currentPrice pos)).
Proof.
  intros [ps Hps] Hin. rewrite (fetchPositions_attempt _ _ _ _ Hps) in Hin.
  destruct (fetch_attempt_elem _ _ _ Hps Hin)
    as (provider & nextId & pos & Hprov & _ & _ & Hpos & _ & _ & Hp).
  exists provider, pos. do 2 (split; [assumption |]).
  rewrite Hp. simpl. repeat split.
Qed.

Lemma fetchPositions_copies_tuple_witness :
  is_Some (fetch_attempt sample_wallet)
  ∧ to_Position 2 sample_leveraged ∈ fetchPositions [sample_wallet] []
  ∧ ∃ provider pos,
      getEthereumProvider sample_wallet = Some provider
      ∧ getPosition (contract_at provider CONTRACT_ADDRESS) 2 = Some pos
      ∧ collateral (to_Position 2 sample_leveraged) = c_collateral pos.
Proof.
  assert (Hfetch : is_Some (fetch_attempt sample_wallet)) by (vm_compute; eauto).
  assert (Hin : to_Position 2 sample_leveraged ∈ fetchPositions [sample_wallet] [])
    by (apply list_elem_of_In; vm_compute; auto).
  do 2 (split; [assumption |]).
  destruct (fetchPositions_copies_tuple sample_wallet [] []
              (to_Position 2 sample_leveraged) Hfetch Hin)
    as (provider & pos & Hprov & Hpos & _ & _ & _ & _ & Hcoll & _).
  exists provider, pos. auto.
Defined.

End Fetch.

(** ** handleClosePosition *)

Section Close.

Local Open Scope Q_scope.

(** Unfolds the handler monad down to state transformers. *)
Ltac run_handler :=
  cbv beta iota zeta delta
    [try_catch_finally close_body close_catch close_finally mbind mret
     Handler_bind Handler_ret await await_ok gets modify emit
     setClosingPositionId setPositions showNotification snd fst
     positions closingPositionId marketStats notification trace].

(** An event that is none of the listed ones. *)
Ltac not_in_events :=
  let H := fresh in
  intros H; apply list_elem_of_In in H; simpl in H; intuition discriminate.

Lemma handleClosePosition_no_wallet (positionId : Z) (st : UIState) :
  handleClosePosition [] positionId st = st.
Proof. reflexivity. Qed.

Lemma handleClosePosition_unknown_position (wallets : list Wallet) (positionId : Z)
    (st : UIState) :
  List.find (λ p, (id p =? positionId)%Z) (positions st) = None →
  handleClosePosition wallets positionId st = st.
Proof. intros H. unfold handleClosePosition. rewrite H. now destruct wallets. Qed.

Lemma handleClosePosition_confirmed (wallet : Wallet) (rest : list Wallet)
    (positionId : Z) (position : Position) (st : UIState) :
  List.find (λ p, (id p =? positionId)%Z) (positions st) = Some position →
  close_confirmed wallet positionId = true →
  handleClosePosition (wallet :: rest) positionId st =
    let pnl := close_pnl position (close_currentPrice (marketStats st) position) in
    {| positions := List.filter (λ p, negb (id p =? positionId)%Z) (positions st);
       closingPositionId := None;
       marketStats := marketStats st;
       notification :=
         Some (mkNotification (PositionClosed pnl)
                              (if Qle_bool 0 pnl then success else error));
       trace := trace st ++ [TxSent positionId; TxConfirmed positionId;
                             PositionRemoved positionId; FetchPositionsStarted] |}.
Proof.
  intros Hfind Hc. unfold close_confirmed in Hc.
  destruct (switchChain wallet ARC_TESTNET) eqn:Hswitch; [| discriminate].
  destruct (getEthereumProvider wallet) as [provider |] eqn:Hprov; [| discriminate].
  destruct (getSigner provider) eqn:Hsigner; [| discriminate].
  destruct (closePosition (contract_at provider CONTRACT_ADDRESS) positionId)
    as [tx |] eqn:Htx; [| discriminate].
  simpl in Hc.
  unfold handleClosePosition. rewrite Hfind. run_handler.
  rewrite Hswitch, Hprov. run_handler. rewrite Hsigner, Htx. run_handler. rewrite Hc.
  destruct st as [ps cl ms nt tr]. run_handler.
  rewrite <- !app_assoc. reflexivity.
Qed.

Lemma handleClosePosition_failed (wallet : Wallet) (rest : list Wallet)
    (positionId : Z) (position : Position) (st : UIState) :
  List.find (λ p, (id p =? positionId)%Z) (positions st) = Some position →
  close_confirmed wallet positionId = false →
  ∃ evs,
    handleClosePosition (wallet :: rest) positionId st =
      {| positions := positions st;
         closingPositionId := None;
         marketStats := marketStats st;
         notification := Some (mkNotification FailedToClose error);
         trace := trace st ++ evs |}
    ∧ PositionRemoved positionId ∉ evs.
Proof.
  intros Hfind Hc. unfold close_confirmed in Hc.
  unfold handleClosePosition. rewrite Hfind. destruct st as [ps cl ms nt tr]. run_handler.
  destruct (switchChain wallet ARC_TESTNET) eqn:Hswitch.
  2:{ exists [ErrorLogged]. split; [reflexivity | not_in_events]. }
  destruct (getEthereumProvider wallet) as [provider |] eqn:Hprov.
  2:{ exists [ErrorLogged]. split; [reflexivity | not_in_events]. }
  run_handler.
  destruct (getSigner provider) eqn:Hsigner.
  2:{ exists [ErrorLogged]. split; [reflexivity | not_in_events]. }
  destruct (closePosition (contract_at provider CONTRACT_ADDRESS) positionId)
    as [tx |] eqn:Htx.
  2:{ exists [ErrorLogged]. split; [reflexivity | not_in_events]. }
  simpl in Hc. run_handler. rewrite Hc.
  exists [TxSent positionId; ErrorLogged]. split; [| not_in_events].
  rewrite <- !app_assoc. reflexivity.
Qed.

Lemma close_pnl_formula (position : Position) (currentPrice : Q) :
  close_pnl position currentPrice
  == spec_pnl currentPrice (entryPrice position) (collateral position) (leverage position).
Proof.
  unfold close_pnl, spec_pnl, close_path.
  destruct (Qeq_bool (leverage position) 1) eqn:E.
  - apply Qeq_bool_eq in E. rewrite E. ring.
  - reflexivity.
Qed.

Lemma close_path_spot (position : Position) :
  leverage position == 1 → close_path position = Spot.
Proof. intros H. unfold close_path. apply Qeq_bool_iff in H. now rewrite H. Qed.

Lemma close_path_perpetual (position : Position) :
  ¬ leverage position == 1 → close_path position = Perpetual.
Proof.
  intros H. unfold close_path.
  destruct (Qeq_bool (leverage position) 1) eqn:E; [| reflexivity].
  apply Qeq_bool_eq in E. contradiction.
Qed.

(** C9, as stated, fails: asked to close a position that is not in the
    list, the handler returns at its second guard, and the
    [closingPositionId] of a close still in flight stays as it is. *)
Lemma closingPositionId_kept_by_guard :
  closingPositionId
    (handleClosePosition [sample_wallet] 2
       (mkUIState [to_Position 1 sample_spot] (Some 1%Z) ∅ None []))
  = Some 1%Z.
Proof. vm_compute. reflexivity. Qed.

(** C9, amended. Past its two guards (a wallet is connected and the
    position is in the list) [handleClosePosition] always ends with
    [closingPositionId] null; when every awaited step resolves, the position
    is filtered out of the list, after the transaction was sent and
    confirmed; when a step throws, the list is unchanged and the error
    notification is shown, and nothing was removed. When a guard does not
    pass, the handler returns with the state untouched. *)
Theorem handleClosePosition_atomic (wallets : list Wallet) (positionId : Z) (st : UIState) :
  let st' := handleClosePosition wallets positionId st in
  match wallets, List.find (λ p, (id p =? positionId)%Z) (positions st) with
  | wallet :: _, Some position =>
      closingPositionId st' = None
      ∧ if close_confirmed wallet positionId
        then positions st' = List.filter (λ p, negb (id p =? positionId)%Z) (positions st)
             ∧ trace st' = (trace st ++ [TxSent positionId; TxConfirmed positionId;
                                         PositionRemoved positionId; FetchPositionsStarted])%list
        else positions st' = positions st
             ∧ notification st' = Some (mkNotification FailedToClose error)
             ∧ ∃ evs, trace st' = (trace st ++ evs)%list ∧ PositionRemoved positionId ∉ evs
  | _, _ => st' = st
  end.
Proof.
  intros st'. subst st'.
  destruct wallets as [| wallet rest]; [reflexivity |].
  destruct (List.find (λ p, (id p =? positionId)%Z) (positions st)) as [position |] eqn:Hfind.
  2:{ now apply handleClosePosition_unknown_position. }
  destruct (close_confirmed wallet positionId) eqn:Hc.
  - rewrite (handleClosePosition_confirmed _ _ _ _ _ Hfind Hc). simpl. auto.
  - destruct (handleClosePosition_failed _ rest _ _ _ Hfind Hc) as (evs & -> & Hevs).
    simpl. eauto 6.
Qed.

End Close.

(** ** Profit and loss *)

Section PnL.

Local Open Scope Q_scope.

(** C1. At leverage 1 [fetchPositions] departs from the formula. For the
    sample spot position on the NO side (10 USDC, entered at 30, its market
    at a chance of 65, so a current price of 35 for NO) the list holds a PnL
    of 0.05: the price difference over 100, without the collateral. The
    formula gives 0.5, and so does the spot branch of [handleClosePosition]
    at the same price. *)
Theorem fetchPositions_spot_pnl_drops_collateral :
  fetchPositions [sample_wallet_spot_no] [] = [to_Position 1 sample_spot_no]
  ∧ find_market (marketId (to_Position 1 sample_spot_no))
    = Some (mkMarket 3 "Bitcoin to break $100k before Q3?"
              "https://images.unsplash.com/photo-1518546305927-5a555bb7020d?q=80&w=1000&auto=format&fit=crop"
              "$89.1M" 65 "Crypto")
  ∧ isLongYes (to_Position 1 sample_spot_no) = false
  ∧ leverage (to_Position 1 sample_spot_no) = 1
  ∧ currentPrice (to_Position 1 sample_spot_no) = Some 35
  ∧ (∃ pl, pnl (to_Position 1 sample_spot_no) = Some pl ∧ pl == 5 # 100)
  ∧ spec_pnl 35 (entryPrice (to_Position 1 sample_spot_no))
      (collateral (to_Position 1 sample_spot_no))
      (leverage (to_Position 1 sample_spot_no)) == 1 # 2
  ∧ close_pnl (to_Position 1 sample_spot_no) 35 == 1 # 2.
Proof.
  split; [vm_compute; reflexivity |].
  split; [reflexivity |].
  split; [reflexivity |].
  split; [reflexivity |].
  split; [vm_compute; reflexivity |].
  split; [eexists; split; [reflexivity | vm_compute; reflexivity] |].
  split; vm_compute; reflexivity.
Qed.

(** X29. Where the formula does hold. For every position with leverage other
    than 1 assembled by a fetch that goes through, the PnL is
    (currentPrice - entryPrice)/100 x collateral (in USDC at six decimals)
    x leverage, with [currentPrice] the chance of the position's market for
    a YES position and 100 minus it for a NO position (the entry price when
    the market is not listed). [handleClosePosition] follows the formula at
    every leverage, 1 included, and a confirmed close reports that PnL,
    taken at the price of the statistics map for the position's side when
    the market has an entry, at the static chance for the side otherwise. *)
Theorem pnl_by_formula :
  (∀ (wallet : Wallet) (rest : list Wallet) (old : list Position) (p : Position),
     is_Some (fetch_attempt wallet) →
     p ∈ fetchPositions (wallet :: rest) old →
     ¬ leverage p == 1 →
     ∃ cp pl,
       currentPrice p = Some cp
       ∧ cp = match find_market (marketId p) with
              | Some market => if isLongYes p then chance market else 100 - chance market
              | None => entryPrice p
              end
       ∧ pnl p = Some pl
       ∧ pl == spec_pnl cp (entryPrice p) (collateral p) (leverage p))
  ∧ (∀ (position : Position) (cp : Q),
       close_pnl position cp
       == spec_pnl cp (entryPrice position) (collateral position) (leverage position))
  ∧ (∀ (wallet : Wallet) (rest : list Wallet) (positionId : Z) (position : Position)
       (st : UIState),
       List.find (λ p, (id p =? positionId)%Z) (positions st) = Some position →
       close_confirmed wallet positionId = true →
       ∃ cp realized t,
         cp = match find_market (marketId position) with
              | Some market =>
                  match marketStats st !! market_id market with
                  | Some s => if isLongYes position then yesPrice s else noPrice s
                  | None =>
                      if isLongYes position then chance market else 100 - chance market
                  end
              | None => entryPrice position
              end
         ∧ notification (handleClosePosition (wallet :: rest) positionId st)
           = Some (mkNotification (PositionClosed realized) t)
         ∧ realized == spec_pnl cp (entryPrice position) (collateral position)
                         (leverage position)).
Proof.
  split; [| split].
  - intros wallet rest old p [ps Hps] Hin Hlev.
    rewrite (fetchPositions_attempt _ _ _ _ Hps) in Hin.
    destruct (fetch_attempt_elem _ _ _ Hps Hin)
      as (provider & nextId & pos & _ & _ & _ & _ & _ & _ & Hp).
    rewrite Hp in Hlev |- *. simpl in *.
    eexists _, _. split; [reflexivity |].
    split; [unfold fetch_currentPrice, static_price;
            now destruct (find_market (c_marketId pos)) |].
    split; [reflexivity |].
    unfold fetch_pnl. rewrite fetch_path_perpetual; [reflexivity |].
    intros E. apply Hlev. now apply Number_of_bigint_one.
  - apply close_pnl_formula.
  - intros wallet rest positionId position st Hfind Hc.
    rewrite (handleClosePosition_confirmed _ _ _ _ _ Hfind Hc). simpl.
    unfold close_currentPrice, static_price.
    eexists _, _, _. split; [reflexivity |]. split; [reflexivity |].
    apply close_pnl_formula.
Qed.

Lemma pnl_by_formula_witness :
  (currentPrice (to_Position 2 sample_leveraged) = Some 35
   ∧ ∃ pl, pnl (to_Position 2 sample_leveraged) = Some pl
           ∧ pl == spec_pnl 35 40 20000000 3)
  ∧ ∃ realized t,
      notification
        (handleClosePosition [sample_wallet_spot_no] 1
           (mkUIState [to_Position 1 sample_spot_no] None ∅ None []))
        = Some (mkNotification (PositionClosed realized) t)
      ∧ realized == spec_pnl 35 30 10000000 1.
Proof.
  destruct pnl_by_formula as (Hfetch & _ & Hclose). split.
  - destruct (Hfetch sample_wallet [] [] (to_Position 2 sample_leveraged))
      as (cp & pl & Hcur & Hcp & Hpnl & Hformula).
    + vm_compute. eauto.
    + apply list_elem_of_In. vm_compute. auto.
    + vm_compute. discriminate.
    + split; [rewrite Hcur, Hcp; vm_compute; reflexivity |].
      exists pl. split; [exact Hpnl |].
      rewrite Hformula, Hcp. vm_compute. reflexivity.
  - destruct (Hclose sample_wallet_spot_no [] 1%Z (to_Position 1 sample_spot_no)
                (mkUIState [to_Position 1 sample_spot_no] None ∅ None []))
      as (cp & realized & t & Hcp & Hnote & Hformula);
      [vm_compute; reflexivity | vm_compute; reflexivity |].
    exists realized, t. split; [exact Hnote |].
    rewrite Hformula, Hcp. vm_compute. reflexivity.
Defined.

End PnL.

(** ** Routing on leverage *)

Section Routing.

Local Open Scope Q_scope.

Lemma trade_path_spot (l : Q) : l <= 1 → trade_path l = Spot.
Proof. intros H. unfold trade_path. apply Qle_bool_iff in H. now rewrite H. Qed.

Lemma trade_path_perpetual (l : Q) : 1 < l → trade_path l = Perpetual.
Proof.
  intros H. unfold trade_path.
  destruct (Qle_bool l 1) eqn:E; [| reflexivity].
  apply Qle_bool_iff in E. lra.
Qed.

Lemma Number_of_bigint_gt_one (n : N) : (1 < n)%N → ¬ Number_of_bigint n == 1.
Proof. intros H E. apply Number_of_bigint_one in E. lia. Qed.

(** C5. The three branches of the page are keyed on leverage alone. A
    position or trade with leverage 1 takes the spot branch and one with
    leverage above 1 takes the leverage branch, in [fetchPositions], in
    [handleClosePosition] and in [handleTrade]; two inputs with the same
    leverage take the same branch whatever their other fields; and the
    branch fixes the PnL treatment in [fetchPositions]. *)
Theorem routing_by_leverage :
  (∀ pos, c_leverage pos = 1%N → fetch_path pos = Spot)
  ∧ (∀ pos, (1 < c_leverage pos)%N → fetch_path pos = Perpetual)
  ∧ (∀ position, leverage position == 1 → close_path position = Spot)
  ∧ (∀ position, 1 < leverage position → close_path position = Perpetual)
  ∧ (∀ l, l == 1 → trade_path l = Spot)
  ∧ (∀ l, 1 < l → trade_path l = Perpetual)
  ∧ (∀ pos pos', c_leverage pos = c_leverage pos' → fetch_path pos = fetch_path pos')
  ∧ (∀ position position',
       leverage position == leverage position' → close_path position = close_path position')
  ∧ (∀ l l', l == l' → trade_path l = trade_path l')
  ∧ (∀ pos cp, fetch_path pos = Spot →
       fetch_pnl pos cp = (cp - Number_of_bigint (c_entryPrice pos)) / 100)
  ∧ (∀ pos cp, fetch_path pos = Perpetual →
       fetch_pnl pos cp
       = spec_pnl cp (Number_of_bigint (c_entryPrice pos)) (c_collateral pos)
           (Number_of_bigint (c_leverage pos))).
Proof.
  repeat split.
  - apply fetch_path_spot.
  - intros pos H. apply fetch_path_perpetual. lia.
  - apply close_path_spot.
  - intros position H. apply close_path_perpetual. lra.
  - intros l H. apply trade_path_spot. lra.
  - apply trade_path_perpetual.
  - intros pos pos' H. unfold fetch_path. now rewrite H.
  - intros position position' H. unfold close_path.
    now rewrite (Qeqb_comp _ _ H 1 1 (Qeq_refl 1)).
  - intros l l' H. unfold trade_path.
    now rewrite (Qleb_comp _ _ H 1 1 (Qeq_refl 1)).
  - intros pos cp H. unfold fetch_pnl. now rewrite H.
  - intros pos cp H. unfold fetch_pnl. now rewrite H.
Qed.

Lemma routing_by_leverage_witness :
  fetch_path sample_spot = Spot
  ∧ fetch_path sample_leveraged = Perpetual
  ∧ close_path (to_Position 1 sample_spot) = Spot
  ∧ close_path (to_Position 2 sample_leveraged) = Perpetual
  ∧ trade_path 1 = Spot
  ∧ trade_path 5 = Perpetual.
Proof.
  destruct routing_by_leverage as (F1 & F2 & C1 & C2 & T1 & T2 & _).
  split; [apply F1; reflexivity |].
  split; [apply F2; reflexivity |].
  split; [apply C1; reflexivity |].
  split; [apply C2; reflexivity |].
  split; [apply T1; reflexivity | apply T2; reflexivity].
Defined.

End Routing.

(** ** handleTrade *)

Section TradeProperties.

Local Open Scope Q_scope.

Variable parseFloat : string → option Q.

Lemma trade_collateralAmount_eq (l amount : Q) :
  trade_collateralAmount l amount = parseUnits6 (toFixed6 amount).
Proof. unfold trade_collateralAmount. now destruct (trade_path l). Qed.

Lemma trade_request_value (market : Market) (stats : option MarketStats)
    (l : Q) (tradeAmount : string) (side : Side) :
  o_value <$> trade_request parseFloat market stats l tradeAmount side
  = parseUnits6 (toFixed6 (trade_amount parseFloat tradeAmount)).
Proof.
  unfold trade_request. rewrite trade_collateralAmount_eq.
  now destruct (parseUnits6 (toFixed6 (trade_amount parseFloat tradeAmount))).
Qed.

Lemma handleTrade_opened (authenticated : bool) (wallets : list Wallet)
    (market : Market) (stats : option MarketStats) (l : Q) (tradeAmount : string)
    (side : Side) (call : OpenPositionCall) (h : string) :
  handleTrade parseFloat authenticated wallets market stats l tradeAmount side
    = PositionOpened call h →
  trade_request parseFloat market stats l tradeAmount side = Some call.
Proof.
  unfold handleTrade. destruct authenticated; [| discriminate]. simpl.
  destruct wallets as [| wallet rest]; [discriminate |].
  case_guard; [| discriminate]. simpl.
  destruct (getEthereumProvider wallet) as [provider |]; [| discriminate]. simpl.
  case_guard; [| discriminate]. simpl.
  destruct (trade_request parseFloat market stats l tradeAmount side) as [call' |];
    [| discriminate]. simpl.
  destruct (openPosition (contract_at provider CONTRACT_ADDRESS) call') as [tx |];
    [| discriminate]. simpl.
  case_guard; [| discriminate]. simpl. congruence.
Qed.

(** C10. In [handleTrade] the spot branch and the leverage branch compute
    the same collateral, [parseUnits(amount.toFixed(6), 6)], where the amount
    is 10 when the input does not parse; so the value sent with
    [openPosition] does not depend on the leverage chosen. *)
Theorem trade_value_independent_of_leverage (market : Market) (stats : option MarketStats)
    (l l' : Q) (tradeAmount : string) (side : Side) :
  trade_collateralAmount l (trade_amount parseFloat tradeAmount)
  = parseUnits6 (toFixed6 (trade_amount parseFloat tradeAmount))
  ∧ o_value <$> trade_request parseFloat market stats l tradeAmount side
    = o_value <$> trade_request parseFloat market stats l' tradeAmount side
  ∧ (parseFloat tradeAmount = None → trade_amount parseFloat tradeAmount = 10)
  ∧ (∀ authenticated wallets call h,
       handleTrade parseFloat authenticated wallets market stats l tradeAmount side
         = PositionOpened call h →
       Some (o_value call) = parseUnits6 (toFixed6 (trade_amount parseFloat tradeAmount))).
Proof.
  split; [apply trade_collateralAmount_eq |].
  split; [now rewrite !trade_request_value |].
  split.
  - intros H. unfold trade_amount. now rewrite H.
  - intros authenticated wallets call h H.
    apply handleTrade_opened in H. rewrite <- (trade_request_value market stats l tradeAmount side).
    now rewrite H.
Qed.

End TradeProperties.

Lemma trade_value_independent_of_leverage_witness :
  trade_amount (λ _, None) "abc" = 10%Q
  ∧ o_value <$> trade_request (λ _, None) (mkMarket 3 "m" "" "" 65 "") None 1 "abc" YES
    = o_value <$> trade_request (λ _, None) (mkMarket 3 "m" "" "" 65 "") None 5 "abc" YES.
Proof.
  destruct (trade_value_independent_of_leverage (λ _, None)
              (mkMarket 3 "m" "" "" 65 "") None 1%Q 5%Q "abc" YES)
    as (_ & Hvalue & Hdefault & _).
  split; [apply Hdefault; reflexivity | exact Hvalue].
Defined.

(** ** The monitoring agent *)

Section Liquidation.

Local Open Scope Q_scope.

Lemma breached_iff (currentPrice : Q) (pos : ChainPosition) :
  Agent.breached currentPrice pos = true
  ↔ Agent.unrealized_pnl currentPrice pos < -80 / 100 * formatUnits6 (c_collateral pos).
Proof.
  unfold Agent.breached, Agent.LIQUIDATION_THRESHOLD.
  rewrite negb_true_iff, <- not_true_iff_false, Qle_bool_iff.
  split; [apply Qnot_le_lt | apply Qlt_not_le].
Qed.

(** C2. In a polling round the agent calls [settlePosition] on a position
    exactly when the position is open, leveraged, and its unrealized PnL is
    below -80% of its collateral: every breach is settled, and no position
    whose loss is within the threshold is. *)
Theorem liquidation_rule (oracle : ChainPosition → Q) (chain : list (Z * ChainPosition))
    (positionId : Z) :
  Agent.settlePosition positionId ∈ Agent.poll oracle chain
  ↔ ∃ pos, (positionId, pos) ∈ chain
           ∧ c_isOpen pos = true
           ∧ (1 < c_leverage pos)%N
           ∧ Agent.unrealized_pnl (oracle pos) pos
             < -80 / 100 * formatUnits6 (c_collateral pos).
Proof.
  unfold Agent.poll. rewrite list_elem_of_omap. split.
  - intros ([i pos] & Hin & Hcheck). simpl in Hcheck.
    destruct (c_isOpen pos) eqn:Hopen; [| discriminate].
    destruct (N.ltb_spec 1 (c_leverage pos)) as [Hlev |]; [| discriminate].
    destruct (Agent.breached (oracle pos) pos) eqn:Hb; [| discriminate].
    simpl in Hcheck. injection Hcheck as ->.
    exists pos. repeat split; try assumption. now apply breached_iff.
  - intros (pos & Hin & Hopen & Hlev & Hb).
    exists (positionId, pos). split; [assumption |]. simpl.
    apply breached_iff in Hb. apply N.ltb_lt in Hlev.
    now rewrite Hopen, Hlev, Hb.
Qed.

Lemma liquidation_rule_witness :
  Agent.settlePosition 2 ∈ Agent.poll (λ _, 10) [(1%Z, sample_spot); (2%Z, sample_leveraged)]
  ∧ ¬ Agent.settlePosition 2 ∈ Agent.poll (λ _, 35) [(1%Z, sample_spot); (2%Z, sample_leveraged)].
Proof.
  split.
  - apply liquidation_rule. exists sample_leveraged.
    split; [apply list_elem_of_In; simpl; auto |].
    split; [reflexivity |]. split; [reflexivity |]. reflexivity.
  - intros H. apply liquidation_rule in H as (pos & Hin & _ & _ & Hb).
    apply list_elem_of_In in Hin. simpl in Hin.
    destruct Hin as [E | [E | []]]; inversion E; subst pos.
    vm_compute in Hb. discriminate.
Defined.

End Liquidation.

(** ** Market statistics *)

Section Stats.

Local Open Scope Q_scope.

Lemma formatUnits6_nonneg (x : N) : 0 <= formatUnits6 x.
Proof.
  unfold formatUnits6. apply Qle_shift_div_l; [reflexivity |].
  rewrite Qmult_0_l. change 0 with (inject_Z 0). rewrite <- Zle_Qle. lia.
Qed.

Lemma sum_collateral_nonneg (ps : list Position) : 0 <= sum_collateral ps.
Proof.
  induction ps as [| p ps IH]; simpl; [apply Qle_refl |].
  pose proof (formatUnits6_nonneg (collateral p)). lra.
Qed.

(** The accumulating [forEach] computes the two sums, whatever it starts
    from. *)
Lemma fold_add_volume (ps : list Position) (acc : Q * Q) :
  fst (fold_left add_volume ps acc)
  == fst acc + sum_collateral (List.filter isLongYes ps)
  ∧ snd (fold_left add_volume ps acc)
    == snd acc + sum_collateral (List.filter (λ p, negb (isLongYes p)) ps).
Proof.
  revert acc. induction ps as [| p ps IH]; intros acc; simpl.
  - split; ring.
  - destruct (IH (add_volume acc p)) as [IHy IHn]. rewrite IHy, IHn.
    unfold add_volume. destruct (isLongYes p); simpl; split; ring.
Qed.

Lemma filter_twice {A} (f g : A → bool) (l : list A) :
  List.filter f (List.filter g l) = List.filter (λ x, g x && f x) l.
Proof.
  induction l as [| x l IH]; simpl; [reflexivity |].
  destruct (g x); simpl; [destruct (f x) |]; now rewrite IH.
Qed.

Lemma open_on_side_yes (positions : list Position) (market : Market) :
  List.filter isLongYes (market_positions positions market)
  = open_on_side positions market true.
Proof.
  unfold market_positions, open_on_side. rewrite filter_twice.
  apply List.filter_ext. intros p. now destruct (isLongYes p).
Qed.

Lemma open_on_side_no (positions : list Position) (market : Market) :
  List.filter (λ p, negb (isLongYes p)) (market_positions positions market)
  = open_on_side positions market false.
Proof.
  unfold market_positions, open_on_side. rewrite filter_twice.
  apply List.filter_ext. intros p. now destruct (isLongYes p).
Qed.

Lemma market_volumes_sums (positions : list Position) (market : Market) :
  fst (market_volumes positions market)
  == sum_collateral (open_on_side positions market true)
  ∧ snd (market_volumes positions market)
    == sum_collateral (open_on_side positions market false).
Proof.
  unfold market_volumes.
  destruct (fold_add_volume (market_positions positions market) (0, 0)) as [Hy Hn].
  rewrite Hy, Hn, open_on_side_yes, open_on_side_no. simpl. split; ring.
Qed.

(** The entry of one market is always computed: the volumes are sums of
    collateral and so not negative. *)
Lemma market_stats_defined (positions : list Position) (market : Market) :
  ∃ prices,
    calculateAMMPrices (fst (market_volumes positions market))
      (snd (market_volumes positions market)) DEFAULT_INITIAL_LIQUIDITY = Some prices
    ∧ market_stats positions market =
        Some {| stats_id := market_id market;
                yesVolume := fst (market_volumes positions market);
                noVolume := snd (market_volumes positions market);
                yesPrice := p_yesPrice prices;
                noPrice := p_noPrice prices;
                totalVolume := fst (market_volumes positions market)
                               + snd (market_volumes positions market) |}.
Proof.
  destruct (market_volumes_sums positions market) as [Hy Hn].
  destruct (calculateAMMPrices_total_nonneg
              (fst (market_volumes positions market))
              (snd (market_volumes positions market))) as [prices Hprices].
  - rewrite Hy. apply sum_collateral_nonneg.
  - rewrite Hn. apply sum_collateral_nonneg.
  - exists prices. split; [assumption |].
    unfold market_stats. destruct (market_volumes positions market) as [yv nv].
    simpl in *. now rewrite Hprices.
Qed.

(** The [forEach] over the markets fills one entry per market id. *)
Lemma stats_fold_lookup (positions : list Position) (ms : list Market)
    (acc : gmap Z MarketStats) :
  NoDup (market_id <$> ms) →
  ∃ stats,
    fold_left
      (λ acc market,
         stats ← acc;
         entry ← market_stats positions market;
         Some (<[market_id market := entry]> stats))
      ms (Some acc) = Some stats
    ∧ (∀ market, market ∈ ms → stats !! market_id market = market_stats positions market)
    ∧ (∀ k, k ∉ market_id <$> ms → stats !! k = acc !! k).
Proof.
  revert acc. induction ms as [| m ms IH]; intros acc Hnd.
  - exists acc. split; [reflexivity |]. split; [| reflexivity].
    intros market Hin. now apply elem_of_nil in Hin.
  - rewrite fmap_cons in Hnd. apply NoDup_cons in Hnd as [Hfresh Hnd].
    assert (∃ entry, market_stats positions m = Some entry) as [entry Hm]
      by (destruct (market_stats_defined positions m) as (prices & _ & Hm); eauto).
    simpl. rewrite Hm. simpl.
    destruct (IH (<[market_id m := entry]> acc) Hnd) as (stats & Hfold & Hin & Hout).
    exists stats. split; [exact Hfold |]. split.
    + intros market Hmarket. apply elem_of_cons in Hmarket as [-> | Hmarket].
      * rewrite (Hout _ Hfresh), lookup_insert_eq. now rewrite Hm.
      * now apply Hin.
    + intros k Hk. simpl in Hk. rewrite not_elem_of_cons in Hk. destruct Hk as [Hne Hk].
      rewrite (Hout _ Hk). now apply lookup_insert_ne.
Qed.

Lemma MARKETS_ids_NoDup : NoDup (market_id <$> MARKETS).
Proof. compute_done. Qed.

(** C6. The statistics of every market come from the positions held
    locally: [yesVolume] is the sum of the collateral, in USDC at six
    decimals, of the open positions on that market that are long YES,
    [noVolume] the same over those that are long NO, [totalVolume] is their
    sum, and the two prices are those of [calculateAMMPrices] on these
    volumes. The computation always goes through. *)
Theorem computeMarketStats_from_positions (positions : list Position) :
  ∃ stats,
    computeMarketStats positions = Some stats
    ∧ ∀ market, market ∈ MARKETS →
        ∃ s, stats !! market_id market = Some s
             ∧ stats_id s = market_id market
             ∧ yesVolume s == sum_collateral (open_on_side positions market true)
             ∧ noVolume s == sum_collateral (open_on_side positions market false)
             ∧ totalVolume s = yesVolume s + noVolume s
             ∧ calculateAMMPrices (yesVolume s) (noVolume s) DEFAULT_INITIAL_LIQUIDITY
               = Some (mkPrices (yesPrice s) (noPrice s)).
Proof.
  destruct (stats_fold_lookup positions MARKETS ∅ MARKETS_ids_NoDup)
    as (stats & Hfold & Hin & _).
  exists stats. split; [exact Hfold |].
  intros market Hmarket.
  destruct (market_stats_defined positions market) as (prices & Hprices & Hm).
  destruct (market_volumes_sums positions market) as [Hy Hn].
  eexists. split; [rewrite (Hin _ Hmarket); exact Hm |]. simpl.
  repeat split; try assumption.
  rewrite Hprices. now destruct prices.
Qed.

Lemma computeMarketStats_from_positions_witness :
  ∃ stats s,
    computeMarketStats (fetchPositions [sample_wallet] []) = Some stats
    ∧ stats !! 3%Z = Some s
    ∧ yesVolume s == 10 ∧ noVolume s == 20.
Proof.
  destruct (computeMarketStats_from_positions (fetchPositions [sample_wallet] []))
    as (stats & Hstats & Hall).
  destruct (Hall (mkMarket 3 "Bitcoin to break $100k before Q3?"
    "https://images.unsplash.com/photo-1518546305927-5a555bb7020d?q=80&w=1000&auto=format&fit=crop"
    "$89.1M" 65 "Crypto")) as (s & Hs & _ & Hy & Hn & _).
  - apply list_elem_of_In. simpl. auto.
  - exists stats, s. do 2 (split; [assumption |]).
    split; [rewrite Hy | rewrite Hn]; vm_compute; reflexivity.
Defined.

End Stats.

(** * Further properties *)

(** ** The price curve *)

Section Curve.

Local Open Scope Q_scope.






Lemma amm_total_swap (a b L : Q) : amm_total a b L == amm_total b a L.
Proof. unfold amm_total, amm_yesShares, amm_noShares. ring. Qed.

(** X2. The curve treats the two sides alike: exchanging the two volumes
    exchanges the two prices, for every initial liquidity (and both calls
    are undefined together). *)
Theorem calculateAMMPrices_swap (a b initialLiquidity : Q) :
  option_Forall2 Qeq
    (p_yesPrice <$> calculateAMMPrices a b initialLiquidity)
    (p_noPrice <$> calculateAMMPrices b a initialLiquidity)
  ∧ option_Forall2 Qeq
      (p_noPrice <$> calculateAMMPrices a b initialLiquidity)
      (p_yesPrice <$> calculateAMMPrices b a initialLiquidity).
Proof.
  pose proof (amm_total_swap a b initialLiquidity) as Hswap.
  destruct (Qeq_dec (amm_total a b initialLiquidity) 0) as [Hz | Hnz].
  - rewrite (calculateAMMPrices_undefined a b) by assumption.
    rewrite (calculateAMMPrices_undefined b a) by (rewrite <- Hswap; assumption).
    split; constructor.
  - rewrite (calculateAMMPrices_defined a b) by assumption.
    rewrite (calculateAMMPrices_defined b a) by (rewrite <- Hswap; assumption).
    split; constructor; simpl; rewrite <- Hswap; reflexivity.
Qed.

End Curve.

(** ** The fetched list *)

Section FetchedList.

Local Open Scope Q_scope.

Lemma seqZ_sorted (m n : Z) : StronglySorted Z.lt (seqZ m n).
Proof.
  remember (Z.to_nat n) as k eqn:Hk. revert m n Hk.
  induction k as [| k IH]; intros m n Hk.
  - rewrite seqZ_nil by lia. constructor.
  - rewrite seqZ_cons by lia. constructor.
    + apply IH. lia.
    + apply Forall_forall. intros x Hx. apply elem_of_seqZ in Hx. lia.
Qed.

Lemma fetch_one_id (wallet : Wallet) (contract : Contract) (i : Z) (p : Position) :
  fetch_one wallet contract i = Some p → id p = i.
Proof.
  unfold fetch_one. destruct (getPosition contract i) as [pos |]; [| discriminate].
  simpl. case_match; [| discriminate]. intros [= <-]. reflexivity.
Qed.

(** The ids of the positions kept by the loop, in the order of the indices
    visited. *)
Lemma fetched_ids_sorted (wallet : Wallet) (contract : Contract) (l : list Z) :
  StronglySorted Z.lt l →
  StronglySorted Z.lt (id <$> omap (fetch_one wallet contract) l).
Proof.
  induction 1 as [| i l Hsorted IH Hall]; simpl; [constructor |].
  destruct (fetch_one wallet contract i) as [p |] eqn:Hp; [| exact IH].
  simpl. constructor; [exact IH |].
  rewrite (fetch_one_id _ _ _ _ Hp).
  apply Forall_forall. intros j Hj.
  apply list_elem_of_fmap in Hj as (q & -> & Hq).
  apply list_elem_of_omap in Hq as (k & Hk & Hq).
  rewrite (fetch_one_id _ _ _ _ Hq).
  rewrite Forall_forall in Hall. now apply Hall.
Qed.

Lemma strictly_increasing_NoDup (l : list Z) : StronglySorted Z.lt l → NoDup l.
Proof.
  induction 1 as [| x l _ IH Hall]; constructor; [| exact IH].
  intros Hx. rewrite Forall_forall in Hall. specialize (Hall x Hx). lia.
Qed.

(** X3. After a fetch that goes through, the list holds only open positions
    of the connected wallet, the trader compared without regard to letter
    case, and none has an id below 1. *)
Theorem fetchPositions_owned_open (wallet : Wallet) (rest : list Wallet)
    (old : list Position) (p : Position) :
  is_Some (fetch_attempt wallet) →
  p ∈ fetchPositions (wallet :: rest) old →
  isOpen p = true
  ∧ toLowerCase (trader p) = toLowerCase (address wallet)
  ∧ (1 ≤ id p)%Z.
Proof.
  intros [ps Hps] Hin. rewrite (fetchPositions_attempt _ _ _ _ Hps) in Hin.
  destruct (fetch_attempt_elem _ _ _ Hps Hin)
    as (provider & nextId & pos & _ & _ & Hid & _ & Htrader & Hopen & Hp).
  split; [rewrite Hp; exact Hopen |].
  split; [rewrite Hp; simpl; now apply String.eqb_eq | lia].
Qed.

Lemma fetchPositions_owned_open_witness :
  isOpen (to_Position 1 sample_spot) = true
  ∧ toLowerCase (trader (to_Position 1 sample_spot)) = toLowerCase (address sample_wallet)
  ∧ (1 ≤ id (to_Position 1 sample_spot))%Z.
Proof.
  apply (fetchPositions_owned_open sample_wallet [] []).
  - vm_compute. eauto.
  - apply list_elem_of_In. vm_compute. auto.
Defined.

(** X4. The fetch misses nothing: every index from 1 up to, not including,
    [nextPositionId] whose tuple can be read, is open and belongs to the
    wallet, is in the list. *)
Theorem fetchPositions_complete (wallet : Wallet) (rest : list Wallet)
    (old : list Position) (provider : Provider) (nextId : N) (i : Z)
    (pos : ChainPosition) :
  getEthereumProvider wallet = Some provider →
  nextPositionId (contract_at provider CONTRACT_ADDRESS) = Some nextId →
  (1 ≤ i < Z.of_N nextId)%Z →
  getPosition (contract_at provider CONTRACT_ADDRESS) i = Some pos →
  toLowerCase (c_trader pos) = toLowerCase (address wallet) →
  c_isOpen pos = true →
  to_Position i pos ∈ fetchPositions (wallet :: rest) old.
Proof.
  intros Hprov Hnext Hi Hpos Htrader Hopen.
  unfold fetchPositions, fetch_attempt. rewrite Hprov. simpl. rewrite Hnext. simpl.
  apply list_elem_of_omap. exists i. split.
  - unfold position_ids. apply elem_of_seqZ. lia.
  - unfold fetch_one. rewrite Hpos. simpl.
    apply String.eqb_eq in Htrader. now rewrite Htrader, Hopen.
Qed.

Lemma fetchPositions_complete_witness :
  to_Position 2 sample_leveraged ∈ fetchPositions [sample_wallet] [].
Proof.
  apply (fetchPositions_complete sample_wallet [] []
           (mkProvider true (λ _, sample_contract)) 3%N 2%Z sample_leveraged);
    reflexivity || lia.
Defined.

(** X5. After a fetch that goes through, the ids in the list are strictly
    increasing, so no id occurs twice. *)
Theorem fetchPositions_ids_increasing (wallet : Wallet) (rest : list Wallet)
    (old : list Position) :
  is_Some (fetch_attempt wallet) →
  StronglySorted Z.lt (id <$> fetchPositions (wallet :: rest) old)
  ∧ NoDup (id <$> fetchPositions (wallet :: rest) old).
Proof.
  intros [ps Hps]. rewrite (fetchPositions_attempt _ _ _ _ Hps).
  assert (Hsorted : StronglySorted Z.lt (id <$> ps)).
  { unfold fetch_attempt in Hps.
    destruct (getEthereumProvider wallet) as [provider |]; [| discriminate].
    simpl in Hps.
    destruct (nextPositionId (contract_at provider CONTRACT_ADDRESS)) as [nextId |];
      [| discriminate].
    simpl in Hps. injection Hps as <-.
    apply fetched_ids_sorted, seqZ_sorted. }
  split; [exact Hsorted | now apply strictly_increasing_NoDup].
Qed.

Lemma fetchPositions_ids_increasing_witness :
  StronglySorted Z.lt (id <$> fetchPositions [sample_wallet] [])
  ∧ NoDup (id <$> fetchPositions [sample_wallet] []).
Proof.
  apply (fetchPositions_ids_increasing sample_wallet [] []).
  vm_compute. eauto.
Defined.

Lemma fetch_pnl_unknown_market (pos : ChainPosition) :
  fetch_pnl pos (Number_of_bigint (c_entryPrice pos)) == 0.
Proof. unfold fetch_pnl. destruct (fetch_path pos); field. Qed.

(** X6. A fetched position whose market is not one of [MARKETS] is shown at
    its entry price, with a PnL of zero, on the spot and on the leverage
    branch alike. *)
Theorem fetchPositions_unknown_market (wallet : Wallet) (rest : list Wallet)
    (old : list Position) (p : Position) :
  is_Some (fetch_attempt wallet) →
  p ∈ fetchPositions (wallet :: rest) old →
  find_market (marketId p) = None →
  currentPrice p = Some (entryPrice p)
  ∧ ∃ pl, pnl p = Some pl ∧ pl == 0.
Proof.
  intros [ps Hps] Hin Hnone. rewrite (fetchPositions_attempt _ _ _ _ Hps) in Hin.
  destruct (fetch_attempt_elem _ _ _ Hps Hin)
    as (provider & nextId & pos & _ & _ & _ & _ & _ & _ & Hp).
  rewrite Hp in Hnone |- *. simpl in *.
  assert (Hcp : fetch_currentPrice pos = Number_of_bigint (c_entryPrice pos))
    by (unfold fetch_currentPrice; now rewrite Hnone).
  rewrite Hcp. split; [reflexivity |].
  eexists. split; [reflexivity | apply fetch_pnl_unknown_market].
Qed.

Lemma fetchPositions_unknown_market_witness :
  currentPrice (to_Position 1 sample_unlisted) = Some (entryPrice (to_Position 1 sample_unlisted))
  ∧ ∃ pl, pnl (to_Position 1 sample_unlisted) = Some pl ∧ pl == 0.
Proof.
  apply (fetchPositions_unknown_market sample_wallet_unlisted [] []).
  - vm_compute. eauto.
  - apply list_elem_of_In. vm_compute. auto.
  - reflexivity.
Defined.

Lemma scaled_sign (d k : Q) :
  0 < k → (0 < d * k ↔ 0 < d) ∧ (d * k < 0 ↔ d < 0).
Proof.
  intros Hk. repeat split; intros H; nra.
Qed.

Lemma formatUnits6_positive (x : N) : (0 < x)%N → 0 < formatUnits6 x.
Proof.
  intros Hx. unfold formatUnits6. apply Qlt_shift_div_l; [reflexivity |].
  rewrite Qmult_0_l. change 0 with (inject_Z 0). rewrite <- Zlt_Qlt. lia.
Qed.

Lemma Number_of_bigint_positive (x : N) : (0 < x)%N → 0 < Number_of_bigint x.
Proof.
  intros Hx. unfold Number_of_bigint. change 0 with (inject_Z 0).
  rewrite <- Zlt_Qlt. lia.
Qed.

Lemma fetch_pnl_sign (pos : ChainPosition) (cp : Q) :
  (0 < c_collateral pos)%N → (0 < c_leverage pos)%N →
  (0 < fetch_pnl pos cp ↔ Number_of_bigint (c_entryPrice pos) < cp)
  ∧ (fetch_pnl pos cp < 0 ↔ cp < Number_of_bigint (c_entryPrice pos)).
Proof.
  intros Hc Hl.
  pose proof (formatUnits6_positive _ Hc) as Hc'.
  pose proof (Number_of_bigint_positive _ Hl) as Hl'.
  assert (∃ k, 0 < k ∧ fetch_pnl pos cp == (cp - Number_of_bigint (c_entryPrice pos)) * k)
    as (k & Hk & E).
  { unfold fetch_pnl. destruct (fetch_path pos).
    - exists (1 / 100). split; [reflexivity | field].
    - exists (1 / 100 * formatUnits6 (c_collateral pos) * Number_of_bigint (c_leverage pos)).
      split; [| cbv zeta; field].
      apply Qmult_lt_0_compat; [| assumption].
      apply Qmult_lt_0_compat; [reflexivity | assumption]. }
  rewrite E.
  destruct (scaled_sign (cp - Number_of_bigint (c_entryPrice pos)) k Hk) as [[A B] [C D]].
  split; split; intros H.
  - apply A in H. lra.
  - apply B. lra.
  - apply C in H. lra.
  - apply D. lra.
Qed.

(** X7. For a fetched position with collateral and a leverage of at least 1,
    the sign of the PnL is the sign of the price move: the PnL is positive
    exactly when the current price is above the entry price and negative
    exactly when it is below. *)
Theorem fetchPositions_pnl_sign (wallet : Wallet) (rest : list Wallet)
    (old : list Position) (p : Position) :
  is_Some (fetch_attempt wallet) →
  p ∈ fetchPositions (wallet :: rest) old →
  (0 < collateral p)%N → 1 <= leverage p →
  ∃ cp pl, currentPrice p = Some cp ∧ pnl p = Some pl
           ∧ (0 < pl ↔ entryPrice p < cp)
           ∧ (pl < 0 ↔ cp < entryPrice p).
Proof.
  intros [ps Hps] Hin Hc Hl. rewrite (fetchPositions_attempt _ _ _ _ Hps) in Hin.
  destruct (fetch_attempt_elem _ _ _ Hps Hin)
    as (provider & nextId & pos & _ & _ & _ & _ & _ & _ & Hp).
  rewrite Hp in Hc, Hl |- *. simpl in *.
  eexists _, _. do 2 (split; [reflexivity |]).
  apply fetch_pnl_sign; [assumption |].
  unfold Number_of_bigint in Hl. change 1 with (inject_Z 1) in Hl.
  rewrite <- Zle_Qle in Hl. lia.
Qed.

Lemma fetchPositions_pnl_sign_witness :
  ∃ cp pl, currentPrice (to_Position 2 sample_leveraged) = Some cp
           ∧ pnl (to_Position 2 sample_leveraged) = Some pl
           ∧ (0 < pl ↔ entryPrice (to_Position 2 sample_leveraged) < cp)
           ∧ (pl < 0 ↔ cp < entryPrice (to_Position 2 sample_leveraged)).
Proof.
  apply (fetchPositions_pnl_sign sample_wallet [] []).
  - vm_compute. eauto.
  - apply list_elem_of_In. vm_compute. auto.
  - reflexivity.
  - vm_compute. discriminate.
Defined.

(** X8. After a fetch that goes through, the Sell tab of a market lists
    exactly the positions that enter that market's statistics. *)
Theorem sell_positions_are_market_positions (wallet : Wallet) (rest : list Wallet)
    (old : list Position) (market : Market) :
  is_Some (fetch_attempt wallet) →
  sell_positions (fetchPositions (wallet :: rest) old) market
  = market_positions (fetchPositions (wallet :: rest) old) market.
Proof.
  intros [ps Hps]. rewrite (fetchPositions_attempt _ _ _ _ Hps).
  unfold sell_positions, market_positions.
  apply List.filter_ext_in. intros p Hin. apply list_elem_of_In in Hin.
  destruct (fetch_attempt_elem _ _ _ Hps Hin)
    as (provider & nextId & pos & _ & _ & _ & _ & _ & Hopen & Hp).
  rewrite Hp. simpl. rewrite Hopen. now rewrite andb_true_r.
Qed.

Lemma sell_positions_are_market_positions_witness :
  sell_positions (fetchPositions [sample_wallet] [])
    (mkMarket 3 "Bitcoin to break $100k before Q3?" "" "" 65 "")
  = market_positions (fetchPositions [sample_wallet] [])
      (mkMarket 3 "Bitcoin to break $100k before Q3?" "" "" 65 "").
Proof.
  apply (sell_positions_are_market_positions sample_wallet [] []).
  vm_compute. eauto.
Defined.

End FetchedList.

(** ** Closing a position *)

Section Closing.

Local Open Scope Q_scope.

Ltac unfold_handler :=
  cbv beta iota zeta delta
    [try_catch_finally close_body close_catch close_finally mbind mret
     Handler_bind Handler_ret await await_ok gets modify emit
     setClosingPositionId setPositions showNotification snd fst
     positions closingPositionId marketStats notification trace].

Ltac event_in_list :=
  rewrite list_elem_of_In; simpl; intuition (discriminate || congruence).

Lemma filter_sublist {A} (f : A → bool) (l : list A) : List.filter f l `sublist_of` l.
Proof.
  induction l as [| x l IH]; simpl; [constructor |].
  destruct (f x); [now apply sublist_skip | now apply sublist_cons].
Qed.

Lemma find_after_remove (k : Z) (l : list Position) :
  List.find (λ p, (id p =? k)%Z) (List.filter (λ p, negb (id p =? k)%Z) l) = None.
Proof.
  induction l as [| x l IH]; simpl; [reflexivity |].
  destruct (id x =? k)%Z eqn:E; simpl; [exact IH |]. now rewrite E.
Qed.

Lemma filter_keeps_others (k : Z) (l : list Position) :
  (∀ p, p ∈ l → id p ≠ k) → List.filter (λ p, negb (id p =? k)%Z) l = l.
Proof.
  induction l as [| x l IH]; intros H; simpl; [reflexivity |].
  assert (id x ≠ k) by (apply H; left).
  destruct (Z.eqb_spec (id x) k); [contradiction |]. simpl.
  rewrite IH; [reflexivity |]. intros p Hp. apply H. now right.
Qed.

(** With distinct ids, the list is the found position put back into the
    filtered list at its place. *)
Lemma filter_removes_one (k : Z) (l : list Position) (position : Position) :
  NoDup (id <$> l) →
  List.find (λ p, (id p =? k)%Z) l = Some position →
  ∃ before after : list Position,
    l = (before ++ position :: after)%list
    ∧ List.filter (λ p, negb (id p =? k)%Z) l = (before ++ after)%list.
Proof.
  induction l as [| x l IH]; intros Hnd Hfind; [discriminate |].
  rewrite fmap_cons in Hnd. apply NoDup_cons in Hnd as [Hx Hnd]. simpl in *.
  destruct (Z.eqb_spec (id x) k) as [Hk | Hk].
  - injection Hfind as <-. exists [], l. split; [reflexivity |]. simpl.
    apply filter_keeps_others. intros p Hp Hid. apply Hx.
    rewrite Hk, <- Hid. now apply list_elem_of_fmap_2.
  - destruct (IH Hnd Hfind) as (before & after & -> & Hfilter).
    exists (x :: before), after. split; [reflexivity |]. simpl. now rewrite Hfilter.
Qed.

(** X9. A confirmed close takes exactly the positions with the closed id out
    of the list and keeps all others; when ids are distinct, the list gets
    shorter by one. *)
Theorem handleClosePosition_removes_target (wallet : Wallet) (rest : list Wallet)
    (positionId : Z) (position : Position) (st : UIState) :
  List.find (λ p, (id p =? positionId)%Z) (positions st) = Some position →
  close_confirmed wallet positionId = true →
  let st' := handleClosePosition (wallet :: rest) positionId st in
  (∀ p, p ∈ positions st' ↔ p ∈ positions st ∧ id p ≠ positionId)
  ∧ (NoDup (id <$> positions st) →
     S (length (positions st')) = length (positions st)).
Proof.
  intros Hfind Hc st'. subst st'.
  rewrite (handleClosePosition_confirmed _ _ _ _ _ Hfind Hc). simpl. split.
  - intros p. rewrite !list_elem_of_In, filter_In, negb_true_iff, Z.eqb_neq. tauto.
  - intros Hnd.
    destruct (filter_removes_one _ _ _ Hnd Hfind) as (before & after & Hl & ->).
    rewrite Hl, !length_app. simpl. lia.
Qed.

Lemma handleClosePosition_removes_target_witness :
  let st := mkUIState (fetchPositions [sample_wallet] []) None ∅ None [] in
  let st' := handleClosePosition [sample_wallet] 1 st in
  (∀ p, p ∈ positions st' ↔ p ∈ positions st ∧ id p ≠ 1%Z)
  ∧ (NoDup (id <$> positions st) → S (length (positions st')) = length (positions st)).
Proof.
  apply (handleClosePosition_removes_target sample_wallet [] 1%Z (to_Position 1 sample_spot));
    vm_compute; reflexivity.
Defined.

(** X10. Whatever happens, [handleClosePosition] adds no position and
    reorders none, leaves the market statistics alone, and only appends to
    the log. *)
Theorem handleClosePosition_frame (wallets : list Wallet) (positionId : Z) (st : UIState) :
  let st' := handleClosePosition wallets positionId st in
  positions st' `sublist_of` positions st
  ∧ marketStats st' = marketStats st
  ∧ trace st `prefix_of` trace st'.
Proof.
  intros st'. subst st'.
  destruct wallets as [| wallet rest]; [simpl; auto |].
  destruct (List.find (λ p, (id p =? positionId)%Z) (positions st)) as [position |] eqn:Hfind.
  2:{ rewrite handleClosePosition_unknown_position by assumption. auto. }
  destruct (close_confirmed wallet positionId) eqn:Hc.
  - rewrite (handleClosePosition_confirmed _ _ _ _ _ Hfind Hc). simpl.
    split; [apply filter_sublist |]. split; [reflexivity |]. now apply prefix_app_r.
  - destruct (handleClosePosition_failed _ rest _ _ _ Hfind Hc) as (evs & -> & _).
    simpl. split; [reflexivity |]. split; [reflexivity |]. now apply prefix_app_r.
Qed.

(** X11. Once a close is confirmed, asking again to close the same id does
    nothing: the position is gone from the list and the handler returns at
    its guard, with any wallets. *)
Theorem handleClosePosition_twice (wallet : Wallet) (rest wallets' : list Wallet)
    (positionId : Z) (position : Position) (st : UIState) :
  List.find (λ p, (id p =? positionId)%Z) (positions st) = Some position →
  close_confirmed wallet positionId = true →
  handleClosePosition wallets' positionId
    (handleClosePosition (wallet :: rest) positionId st)
  = handleClosePosition (wallet :: rest) positionId st.
Proof.
  intros Hfind Hc. apply handleClosePosition_unknown_position.
  rewrite (handleClosePosition_confirmed _ _ _ _ _ Hfind Hc). simpl.
  apply find_after_remove.
Qed.

Lemma handleClosePosition_twice_witness :
  handleClosePosition [sample_wallet] 1
    (handleClosePosition [sample_wallet] 1
       (mkUIState (fetchPositions [sample_wallet] []) None ∅ None []))
  = handleClosePosition [sample_wallet] 1
      (mkUIState (fetchPositions [sample_wallet] []) None ∅ None []).
Proof.
  apply (handleClosePosition_twice sample_wallet [] [sample_wallet] 1%Z
           (to_Position 1 sample_spot)); vm_compute; reflexivity.
Defined.

(** X12. For a close that gets past its guards, the log tells how far it
    got: the transaction is logged as sent exactly when every step up to the
    [closePosition] call resolved, and as confirmed, with the position
    removed, exactly when its confirmation also arrived. *)
Theorem handleClosePosition_log (wallet : Wallet) (rest : list Wallet)
    (positionId : Z) (position : Position) (st : UIState) :
  List.find (λ p, (id p =? positionId)%Z) (positions st) = Some position →
  ∃ evs,
    trace (handleClosePosition (wallet :: rest) positionId st) = (trace st ++ evs)%list
    ∧ (TxSent positionId ∈ evs ↔ close_sent wallet positionId = true)
    ∧ (TxConfirmed positionId ∈ evs ↔ close_confirmed wallet positionId = true)
    ∧ (PositionRemoved positionId ∈ evs ↔ close_confirmed wallet positionId = true)
    ∧ (ErrorLogged ∈ evs ↔ close_confirmed wallet positionId = false).
Proof.
  intros Hfind. unfold handleClosePosition. rewrite Hfind.
  unfold close_sent, close_confirmed.
  destruct st as [ps cl ms nt tr]. unfold_handler.
  destruct (switchChain wallet ARC_TESTNET).
  2:{ exists [ErrorLogged]. split; [reflexivity |]. simpl. repeat split; event_in_list. }
  destruct (getEthereumProvider wallet) as [provider |].
  2:{ exists [ErrorLogged]. split; [reflexivity |]. simpl. repeat split; event_in_list. }
  unfold_handler. destruct (getSigner provider).
  2:{ exists [ErrorLogged]. split; [reflexivity |]. simpl. repeat split; event_in_list. }
  destruct (closePosition (contract_at provider CONTRACT_ADDRESS) positionId) as [tx |].
  2:{ exists [ErrorLogged]. split; [reflexivity |]. simpl. repeat split; event_in_list. }
  unfold_handler. destruct (wait tx).
  - exists [TxSent positionId; TxConfirmed positionId; PositionRemoved positionId;
            FetchPositionsStarted].
    split; [now rewrite <- !app_assoc |]. simpl. repeat split; event_in_list.
  - exists [TxSent positionId; ErrorLogged].
    split; [now rewrite <- !app_assoc |]. simpl. repeat split; event_in_list.
Qed.

Lemma handleClosePosition_log_witness :
  ∃ evs,
    trace (handleClosePosition [sample_wallet_rejecting] 1
             (mkUIState (fetchPositions [sample_wallet] []) None ∅ None []))
    = (trace (mkUIState (fetchPositions [sample_wallet] []) None ∅ None []) ++ evs)%list
    ∧ (TxSent 1 ∈ evs ↔ close_sent sample_wallet_rejecting 1 = true)
    ∧ (TxConfirmed 1 ∈ evs ↔ close_confirmed sample_wallet_rejecting 1 = true)
    ∧ (PositionRemoved 1 ∈ evs ↔ close_confirmed sample_wallet_rejecting 1 = true)
    ∧ (ErrorLogged ∈ evs ↔ close_confirmed sample_wallet_rejecting 1 = false).
Proof.
  apply (handleClosePosition_log sample_wallet_rejecting [] 1%Z (to_Position 1 sample_spot)).
  vm_compute. reflexivity.
Defined.

(** X13. A confirmed close announces the realized PnL as a success exactly
    when that PnL is not negative, and as an error otherwise. *)
Theorem handleClosePosition_notification_sign (wallet : Wallet) (rest : list Wallet)
    (positionId : Z) (position : Position) (st : UIState) :
  List.find (λ p, (id p =? positionId)%Z) (positions st) = Some position →
  close_confirmed wallet positionId = true →
  ∃ realized t,
    notification (handleClosePosition (wallet :: rest) positionId st)
      = Some (mkNotification (PositionClosed realized) t)
    ∧ realized = close_pnl position (close_currentPrice (marketStats st) position)
    ∧ (t = success ↔ 0 <= realized).
Proof.
  intros Hfind Hc. rewrite (handleClosePosition_confirmed _ _ _ _ _ Hfind Hc). simpl.
  eexists _, _. split; [reflexivity |]. split; [reflexivity |].
  destruct (Qle_bool 0 _) eqn:E.
  - apply Qle_bool_iff in E. tauto.
  - split; [discriminate |]. intros H. apply Qle_bool_iff in H. congruence.
Qed.

Lemma handleClosePosition_notification_sign_witness :
  ∃ realized t,
    notification
      (handleClosePosition [sample_wallet] 1
         (mkUIState [to_Position 1 sample_spot] None ∅ None []))
      = Some (mkNotification (PositionClosed realized) t)
    ∧ realized
      = close_pnl (to_Position 1 sample_spot)
          (close_currentPrice
             (marketStats (mkUIState [to_Position 1 sample_spot] None ∅ None []))
             (to_Position 1 sample_spot))
    ∧ (t = success ↔ 0 <= realized).
Proof.
  apply (handleClosePosition_notification_sign sample_wallet [] 1%Z
           (to_Position 1 sample_spot)
           (mkUIState [to_Position 1 sample_spot] None ∅ None []));
    vm_compute; reflexivity.
Defined.

Lemma close_pnl_at_entry (position : Position) :
  close_pnl position (entryPrice position) == 0.
Proof. unfold close_pnl. destruct (close_path position); cbv zeta; field. Qed.

(** X14. A confirmed close of a position whose market is not one of
    [MARKETS] takes the entry price as the current price: it reports a
    realized PnL of zero, as a success. *)
Theorem handleClosePosition_unknown_market (wallet : Wallet) (rest : list Wallet)
    (positionId : Z) (position : Position) (st : UIState) :
  List.find (λ p, (id p =? positionId)%Z) (positions st) = Some position →
  close_confirmed wallet positionId = true →
  find_market (marketId position) = None →
  ∃ realized,
    notification (handleClosePosition (wallet :: rest) positionId st)
      = Some (mkNotification (PositionClosed realized) success)
    ∧ realized == 0.
Proof.
  intros Hfind Hc Hnone. rewrite (handleClosePosition_confirmed _ _ _ _ _ Hfind Hc). simpl.
  unfold close_currentPrice. rewrite Hnone.
  pose proof (close_pnl_at_entry position) as Hzero.
  eexists. split; [| exact Hzero].
  assert (E : Qle_bool 0 (close_pnl position (entryPrice position)) = true)
    by (apply Qle_bool_iff; rewrite Hzero; apply Qle_refl).
  now rewrite E.
Qed.

Lemma handleClosePosition_unknown_market_witness :
  ∃ realized,
    notification
      (handleClosePosition [sample_wallet] 1
         (mkUIState [to_Position 1 sample_unlisted] None ∅ None []))
      = Some (mkNotification (PositionClosed realized) success)
    ∧ realized == 0.
Proof.
  apply (handleClosePosition_unknown_market sample_wallet [] 1%Z
           (to_Position 1 sample_unlisted)); vm_compute; reflexivity.
Defined.





End Closing.

(** ** The statistics map *)

Section StatsMap.

Local Open Scope Q_scope.

Lemma market_volumes_nonneg (positions : list Position) (market : Market) :
  0 <= fst (market_volumes positions market) ∧ 0 <= snd (market_volumes positions market).
Proof.
  destruct (market_volumes_sums positions market) as [Hy Hn].
  rewrite Hy, Hn. split; apply sum_collateral_nonneg.
Qed.

Lemma default_prices_facts (yv nv : Q) (prices : Prices) :
  0 <= yv → 0 <= nv →
  calculateAMMPrices yv nv DEFAULT_INITIAL_LIQUIDITY = Some prices →
  p_yesPrice prices + p_noPrice prices == 100
  ∧ 0 < p_yesPrice prices ∧ p_yesPrice prices < 100
  ∧ 0 < p_noPrice prices ∧ p_noPrice prices < 100.
Proof.
  intros Hy Hn Hprices.
  pose proof (amm_total_lower_bound yv nv Hy Hn) as Hlow.
  rewrite calculateAMMPrices_defined in Hprices by lra.
  injection Hprices as <-. simpl.
  assert (Hys : 0 < amm_yesShares yv DEFAULT_INITIAL_LIQUIDITY)
    by (rewrite amm_yesShares_default; lra).
  assert (Hns : 0 < amm_noShares nv DEFAULT_INITIAL_LIQUIDITY)
    by (rewrite amm_noShares_default; lra).
  destruct (share_price_bounds (amm_noShares nv DEFAULT_INITIAL_LIQUIDITY)
              (amm_total yv nv DEFAULT_INITIAL_LIQUIDITY)) as [? ?];
    [assumption | unfold amm_total; lra |].
  destruct (share_price_bounds (amm_yesShares yv DEFAULT_INITIAL_LIQUIDITY)
              (amm_total yv nv DEFAULT_INITIAL_LIQUIDITY)) as [? ?];
    [assumption | unfold amm_total; lra |].
  split; [| auto].
  unfold amm_total in *. field. lra.
Qed.

(** Every entry of the computed map is the entry of one of [MARKETS]. *)
Lemma computeMarketStats_entries (positions : list Position) :
  ∃ stats,
    computeMarketStats positions = Some stats
    ∧ (∀ market, market ∈ MARKETS →
         stats !! market_id market = market_stats positions market)
    ∧ (∀ k s, stats !! k = Some s →
         ∃ market, market ∈ MARKETS ∧ market_id market = k
                   ∧ market_stats positions market = Some s).
Proof.
  destruct (stats_fold_lookup positions MARKETS ∅ MARKETS_ids_NoDup)
    as (stats & Hfold & Hin & Hout).
  exists stats. split; [exact Hfold |]. split; [exact Hin |].
  intros k s Hk.
  destruct (decide (k ∈ market_id <$> MARKETS)) as [Hmem | Hnot].
  - apply list_elem_of_fmap in Hmem as (market & -> & Hmarket).
    exists market. rewrite <- (Hin _ Hmarket). auto.
  - rewrite (Hout _ Hnot), lookup_empty in Hk. discriminate.
Qed.

(** X16. The statistics map has an entry for each of the six markets and for
    nothing else. *)
Theorem computeMarketStats_domain (positions : list Position) :
  ∃ stats,
    computeMarketStats positions = Some stats
    ∧ ∀ k, is_Some (stats !! k) ↔ k ∈ market_id <$> MARKETS.
Proof.
  destruct (computeMarketStats_entries positions) as (stats & Hstats & Hin & Hout).
  exists stats. split; [exact Hstats |]. intros k. split.
  - intros [s Hs]. destruct (Hout _ _ Hs) as (market & Hmarket & <- & _).
    now apply list_elem_of_fmap_2.
  - intros Hk. apply list_elem_of_fmap in Hk as (market & -> & Hmarket).
    rewrite (Hin _ Hmarket).
    destruct (market_stats_defined positions market) as (prices & _ & ->). eauto.
Qed.

(** X17. Whatever the positions, every entry of the statistics map has
    non-negative volumes and two prices above 0 and not above 100. *)
Theorem computeMarketStats_prices_sound (positions : list Position) :
  ∃ stats,
    computeMarketStats positions = Some stats
    ∧ ∀ k s, stats !! k = Some s →
        0 <= yesVolume s ∧ 0 <= noVolume s
        ∧ 0 < yesPrice s ∧ yesPrice s <= 100
        ∧ 0 < noPrice s ∧ noPrice s <= 100.
Proof.
  destruct (computeMarketStats_entries positions) as (stats & Hstats & _ & Hout).
  exists stats. split; [exact Hstats |]. intros k s Hs.
  destruct (Hout _ _ Hs) as (market & _ & _ & Hm).
  destruct (market_stats_defined positions market) as (prices & Hprices & Hm').
  rewrite Hm' in Hm. injection Hm as <-. simpl.
  destruct (market_volumes_nonneg positions market) as [Hy Hn].
  do 2 (split; [assumption |]).
  destruct (default_prices_facts _ _ _ Hy Hn Hprices) as (_ & ? & ? & ? & ?).
  repeat split; lra.
Qed.

Lemma toFixed1_percentage (x : Q) :
  0 < x → x <= 100 → toFixed1 x = Tenths (Qfloor (x * 10 + 1 / 2)).
Proof.
  intros H0 H100. unfold toFixed1.
  assert (Hbig : 100 < inject_Z (10 ^ 21)) by reflexivity.
  assert (Habs : Qabs x == x) by (apply Qabs_pos; lra).
  destruct (Qle_bool (inject_Z (10 ^ 21)) (Qabs x)) eqn:E.
  - apply Qle_bool_iff in E. rewrite Habs in E. lra.
  - assert (Hpos : Qle_bool 0 x = true) by (apply Qle_bool_iff; lra).
    now rewrite Hpos.
Qed.

(** Two numbers that sum to 100, each rounded to the nearest tenth, give
    tenths that sum to 1000 within one. *)
Lemma tenths_sum (y n : Q) :
  y + n == 100 →
  (999 ≤ Qfloor (y * 10 + 1 / 2) + Qfloor (n * 10 + 1 / 2) ≤ 1001)%Z.
Proof.
  intros Hsum.
  set (half := 1 / 2).
  assert (Hhalf : half + half == 1) by reflexivity.
  pose proof (Qfloor_le (y * 10 + half)) as Hy1.
  pose proof (Qlt_floor (y * 10 + half)) as Hy2.
  pose proof (Qfloor_le (n * 10 + half)) as Hn1.
  pose proof (Qlt_floor (n * 10 + half)) as Hn2.
  rewrite inject_Z_plus in Hy2, Hn2. change (inject_Z 1) with 1 in Hy2, Hn2.
  set (a := Qfloor (y * 10 + half)) in *. set (b := Qfloor (n * 10 + half)) in *.
  assert (Hlow : inject_Z 999 < inject_Z (a + b))
    by (rewrite inject_Z_plus; change (inject_Z 999) with 999; lra).
  assert (Hhigh : inject_Z (a + b) <= inject_Z 1001)
    by (rewrite inject_Z_plus; change (inject_Z 1001) with 1001; lra).
  rewrite <- Zlt_Qlt in Hlow. rewrite <- Zle_Qle in Hhigh. lia.
Qed.

(** X18. The two percentages printed for a listed market, on its card and in
    its expanded view, each with one decimal, sum to 100 within one tenth
    when they come from the statistics map (99.9, 100.0 or 100.1), and to
    exactly 100.0 when they come from the static chance. *)
Theorem displayed_prices_sum (positions : list Position) (market : Market) :
  market ∈ MARKETS →
  ∃ stats,
    computeMarketStats positions = Some stats
    ∧ (∃ y n, shown_percentages market (stats !! market_id market) = (Tenths y, Tenths n)
              ∧ (999 ≤ y + n ≤ 1001)%Z)
    ∧ (∃ y n, shown_percentages market None = (Tenths y, Tenths n)
              ∧ (y + n = 1000)%Z).
Proof.
  intros Hmarket.
  destruct (computeMarketStats_entries positions) as (stats & Hstats & Hin & _).
  exists stats. split; [exact Hstats |]. split.
  - destruct (market_stats_defined positions market) as (prices & Hprices & Hm).
    rewrite (Hin _ Hmarket), Hm. unfold shown_percentages. simpl.
    destruct (market_volumes_nonneg positions market) as [Hy Hn].
    destruct (default_prices_facts _ _ _ Hy Hn Hprices) as (Hsum & ? & ? & ? & ?).
    rewrite !toFixed1_percentage by lra.
    eexists _, _. split; [reflexivity |]. now apply tenths_sum.
  - apply list_elem_of_In in Hmarket. simpl in Hmarket.
    destruct Hmarket as [<- | [<- | [<- | [<- | [<- | [<- | []]]]]]];
      vm_compute; eexists _, _; (split; [reflexivity | reflexivity]).
Qed.

Lemma displayed_prices_sum_witness :
  ∃ stats,
    computeMarketStats (fetchPositions [sample_wallet] []) = Some stats
    ∧ (∃ y n,
         shown_percentages
           (mkMarket 3 "Bitcoin to break $100k before Q3?"
              "https://images.unsplash.com/photo-1518546305927-5a555bb7020d?q=80&w=1000&auto=format&fit=crop"
              "$89.1M" 65 "Crypto")
           (stats !! 3%Z) = (Tenths y, Tenths n)
         ∧ (999 ≤ y + n ≤ 1001)%Z)
    ∧ (∃ y n,
         shown_percentages
           (mkMarket 3 "Bitcoin to break $100k before Q3?"
              "https://images.unsplash.com/photo-1518546305927-5a555bb7020d?q=80&w=1000&auto=format&fit=crop"
              "$89.1M" 65 "Crypto")
           None = (Tenths y, Tenths n)
         ∧ (y + n = 1000)%Z).
Proof.
  apply (displayed_prices_sum (fetchPositions [sample_wallet] [])
           (mkMarket 3 "Bitcoin to break $100k before Q3?"
              "https://images.unsplash.com/photo-1518546305927-5a555bb7020d?q=80&w=1000&auto=format&fit=crop"
              "$89.1M" 65 "Crypto")).
  apply list_elem_of_In. simpl. auto.
Defined.

(** X19. A market on which no open position is held is quoted at 50/50 with
    zero volume, whatever is held on the other markets. *)
Theorem computeMarketStats_untraded_market (positions : list Position) (market : Market) :
  market ∈ MARKETS →
  market_positions positions market = [] →
  ∃ stats s,
    computeMarketStats positions = Some stats
    ∧ stats !! market_id market = Some s
    ∧ yesVolume s == 0 ∧ noVolume s == 0 ∧ totalVolume s == 0
    ∧ yesPrice s == 50 ∧ noPrice s == 50.
Proof.
  intros Hmarket Hnone.
  destruct (computeMarketStats_entries positions) as (stats & Hstats & Hin & _).
  destruct (market_stats_defined positions market) as (prices & Hprices & Hm).
  exists stats. eexists. split; [exact Hstats |].
  split; [rewrite (Hin _ Hmarket); exact Hm |]. simpl.
  unfold market_volumes in *. rewrite Hnone in *. simpl in *.
  vm_compute in Hprices. injection Hprices as <-. simpl.
  repeat split; reflexivity.
Qed.

Lemma computeMarketStats_untraded_market_witness :
  ∃ stats s,
    computeMarketStats (fetchPositions [sample_wallet] []) = Some stats
    ∧ stats !! 1%Z = Some s
    ∧ yesVolume s == 0 ∧ noVolume s == 0 ∧ totalVolume s == 0
    ∧ yesPrice s == 50 ∧ noPrice s == 50.
Proof.
  apply (computeMarketStats_untraded_market (fetchPositions [sample_wallet] [])
           (mkMarket 1 "Will SpaceX Starship reach orbit in 2025?"
              "https://images.unsplash.com/photo-1517976487492-5750f3195933?q=80&w=1000&auto=format&fit=crop"
              "$4.2M" 78 "Science")).
  - apply list_elem_of_In. simpl. auto.
  - vm_compute. reflexivity.
Defined.

Lemma listed_title_found (marketId : string) (market : Market) :
  market ∈ MARKETS → String.eqb marketId (title market) = true →
  is_Some (find_market marketId).
Proof.
  intros Hmarket Heq. unfold find_market.
  destruct (List.find (λ m, String.eqb (title m) marketId) MARKETS) eqn:Hfind; [eauto |].
  apply list_elem_of_In in Hmarket.
  pose proof (List.find_none _ _ Hfind market Hmarket) as Hno. simpl in Hno.
  rewrite String.eqb_sym in Hno. congruence.
Qed.

Lemma market_positions_counted (positions : list Position) (market : Market) :
  market ∈ MARKETS →
  market_positions (List.filter counted positions) market
  = market_positions positions market.
Proof.
  intros Hmarket. unfold market_positions. rewrite filter_twice.
  apply List.filter_ext. intros p. unfold counted.
  destruct (String.eqb (marketId p) (title market)) eqn:Heq; simpl;
    [| now rewrite andb_false_r].
  destruct (listed_title_found _ _ Hmarket Heq) as [m ->].
  now destruct (isOpen p).
Qed.

Lemma stats_fold_ext (ps ps' : list Position) (ms : list Market)
    (acc : option (gmap Z MarketStats)) :
  (∀ market, market ∈ ms → market_stats ps market = market_stats ps' market) →
  fold_left
    (λ acc market,
       stats ← acc; entry ← market_stats ps market;
       Some (<[market_id market := entry]> stats)) ms acc
  = fold_left
      (λ acc market,
         stats ← acc; entry ← market_stats ps' market;
         Some (<[market_id market := entry]> stats)) ms acc.
Proof.
  revert acc. induction ms as [| m ms IH]; intros acc H; simpl; [reflexivity |].
  rewrite (H m) by left. apply IH. intros market Hmarket. apply H. now right.
Qed.

(** X20. Positions that are closed, or whose market is not one of
    [MARKETS], have no effect on the statistics: the map is the one computed
    from the other positions alone. *)
Theorem computeMarketStats_ignores_uncounted (positions : list Position) :
  computeMarketStats positions = computeMarketStats (List.filter counted positions).
Proof.
  unfold computeMarketStats. apply stats_fold_ext.
  intros market Hmarket. unfold market_stats, market_volumes.
  now rewrite market_positions_counted.
Qed.

End StatsMap.

(** ** Opening a position *)

Section Opening.

Local Open Scope Q_scope.

Variable parseFloat : string → option Q.

(** X21. [handleTrade] reports a position as opened in one case only: the
    user is authenticated, a wallet is connected, the chain switch, the
    provider and the signer resolve, the amount can be written as units,
    [openPosition] is sent with those arguments and its confirmation
    arrives; the hash reported is that transaction's. *)
Theorem handleTrade_opened_iff (authenticated : bool) (wallets : list Wallet)
    (market : Market) (stats : option MarketStats) (l : Q) (tradeAmount : string)
    (side : Side) (call : OpenPositionCall) (h : string) :
  handleTrade parseFloat authenticated wallets market stats l tradeAmount side
    = PositionOpened call h
  ↔ authenticated = true
    ∧ ∃ wallet rest provider tx,
        wallets = wallet :: rest
        ∧ switchChain wallet ARC_TESTNET = true
        ∧ getEthereumProvider wallet = Some provider
        ∧ getSigner provider = true
        ∧ trade_request parseFloat market stats l tradeAmount side = Some call
        ∧ openPosition (contract_at provider CONTRACT_ADDRESS) call = Some tx
        ∧ wait tx = true
        ∧ hash tx = h.
Proof.
  unfold handleTrade. split.
  - destruct authenticated; [| discriminate]. simpl.
    destruct wallets as [| wallet rest]; [discriminate |].
    case_guard as Hswitch; [| discriminate]. simpl.
    destruct (getEthereumProvider wallet) as [provider |] eqn:Hprov; [| discriminate]. simpl.
    case_guard as Hsigner; [| discriminate]. simpl.
    destruct (trade_request parseFloat market stats l tradeAmount side) as [call' |] eqn:Hreq;
      [| discriminate]. simpl.
    destruct (openPosition (contract_at provider CONTRACT_ADDRESS) call') as [tx |] eqn:Htx;
      [| discriminate]. simpl.
    case_guard as Hwait; [| discriminate]. simpl. intros [= -> <-].
    split; [reflexivity |]. exists wallet, rest, provider, tx.
    repeat split; first [assumption | reflexivity].
  - intros (-> & wallet & rest & provider & tx & -> & Hswitch & -> & Hsigner & -> & Htx
            & Hwait & <-).
    simpl. rewrite Hswitch, Hsigner. simpl. rewrite Htx. simpl. now rewrite Hwait.
Qed.

Lemma Qfloor_unique (x : Q) (z : Z) :
  inject_Z z <= x → x < inject_Z (z + 1) → Qfloor x = z.
Proof.
  intros Hle Hlt.
  pose proof (Qfloor_le x) as H1. pose proof (Qlt_floor x) as H2.
  assert (inject_Z z < inject_Z (Qfloor x + 1)) as H3 by lra.
  assert (inject_Z (Qfloor x) < inject_Z (z + 1)) as H4 by lra.
  rewrite <- Zlt_Qlt in H3, H4. lia.
Qed.

Lemma Qfloor_percentage (x : Q) : 0 < x → x < 100 → (0 ≤ Qfloor x ≤ 99)%Z.
Proof.
  intros H0 H100.
  pose proof (Qfloor_le x) as H1. pose proof (Qlt_floor x) as H2.
  assert (inject_Z (Qfloor x) < inject_Z 100) as H3 by (change (inject_Z 100) with 100; lra).
  assert (inject_Z 0 < inject_Z (Qfloor x + 1)) as H4 by (change (inject_Z 0) with 0; lra).
  rewrite <- Zlt_Qlt in H3, H4. lia.
Qed.

(** X22. When the market view shows the prices of the statistics map, the
    entry price sent with [openPosition] is a whole number from 0 to 100,
    on either side. *)
Theorem trade_entryPrice_range (positions : list Position)
    (stats : gmap Z MarketStats) (s : MarketStats) (market : Market)
    (l : Q) (tradeAmount : string) (side : Side) (call : OpenPositionCall) :
  computeMarketStats positions = Some stats →
  stats !! market_id market = Some s →
  trade_request parseFloat market (Some s) l tradeAmount side = Some call →
  (0 ≤ o_entryPrice call ≤ 100)%Z.
Proof.
  intros Hstats Hs Hcall.
  destruct (computeMarketStats_entries positions) as (stats' & Hstats' & _ & Hout).
  rewrite Hstats in Hstats'. injection Hstats' as <-.
  destruct (Hout _ _ Hs) as (market' & _ & _ & Hm).
  destruct (market_stats_defined positions market') as (prices & Hprices & Hm').
  rewrite Hm' in Hm. injection Hm as <-.
  destruct (market_volumes_nonneg positions market') as [Hy Hn].
  destruct (default_prices_facts _ _ _ Hy Hn Hprices) as (_ & Hy0 & Hy1 & Hn0 & Hn1).
  unfold trade_request in Hcall.
  destruct (trade_collateralAmount l (trade_amount parseFloat tradeAmount)); [| discriminate].
  simpl in Hcall. injection Hcall as <-. simpl.
  destruct side; simpl.
  - pose proof (Qfloor_percentage _ Hy0 Hy1). lia.
  - pose proof (Qfloor_percentage _ Hn0 Hn1). lia.
Qed.

End Opening.

Lemma trade_entryPrice_range_witness :
  ∃ stats s call,
    computeMarketStats (fetchPositions [sample_wallet] []) = Some stats
    ∧ stats !! 3%Z = Some s
    ∧ trade_request (λ _, None)
        (mkMarket 3 "Bitcoin to break $100k before Q3?" "" "" 65 "") (Some s) 2 "25" YES
      = Some call
    ∧ (0 ≤ o_entryPrice call ≤ 100)%Z.
Proof.
  destruct (computeMarketStats_entries (fetchPositions [sample_wallet] []))
    as (stats & Hstats & Hin & _).
  destruct (market_stats_defined (fetchPositions [sample_wallet] [])
              (mkMarket 3 "Bitcoin to break $100k before Q3?"
                 "https://images.unsplash.com/photo-1518546305927-5a555bb7020d?q=80&w=1000&auto=format&fit=crop"
                 "$89.1M" 65 "Crypto")) as (prices & _ & Hm).
  rewrite <- Hin in Hm by (apply list_elem_of_In; simpl; auto). simpl in Hm.
  lazymatch type of Hm with _ = Some ?s => exists stats, s end.
  eexists. split; [exact Hstats |]. split; [exact Hm |].
  split; [reflexivity |].
  eapply (trade_entryPrice_range (λ _, None) (fetchPositions [sample_wallet] []) stats _
            (mkMarket 3 "Bitcoin to break $100k before Q3?" "" "" 65 "") 2 "25" YES);
    [exact Hstats | exact Hm | reflexivity].
Defined.

(** ** Amounts and units *)

Section Amounts.

Local Open Scope Q_scope.

Lemma toFixed6_in_range (x : Q) :
  Qabs x < inject_Z (10 ^ 21) →
  toFixed6 x
  = if Qle_bool 0 x then Fixed6 (Qfloor (x * 1000000 + 1 / 2))
    else Fixed6 (- Qfloor (- x * 1000000 + 1 / 2)).
Proof.
  intros H. unfold toFixed6.
  destruct (Qle_bool (inject_Z (10 ^ 21)) (Qabs x)) eqn:E; [| reflexivity].
  apply Qle_bool_iff in E. lra.
Qed.

(** X23. For every amount below 1e21 in magnitude, the collateral sent is
    the amount in millionths rounded to the nearest integer, at most half a
    millionth away, on the spot and on the leverage branch alike; and it is
    not negative when the amount is not. *)
Theorem trade_collateral_rounding (l amount : Q) :
  Qabs amount < inject_Z (10 ^ 21) →
  ∃ v, trade_collateralAmount l amount = Some v
       ∧ Qabs (inject_Z v - amount * 1000000) <= 1 / 2
       ∧ (0 <= amount → (0 ≤ v)%Z).
Proof.
  intros Hrange. rewrite trade_collateralAmount_eq, toFixed6_in_range by assumption.
  set (half := 1 / 2) in *.
  assert (Hhalf : half + half == 1) by reflexivity.
  destruct (Qle_bool 0 amount) eqn:Hsign; cbn [parseUnits6]; eexists;
    (split; [reflexivity |]).
  - apply Qle_bool_iff in Hsign.
    pose proof (Qfloor_le (amount * 1000000 + half)) as H1.
    pose proof (Qlt_floor (amount * 1000000 + half)) as H2.
    rewrite inject_Z_plus in H2. change (inject_Z 1) with 1 in H2.
    split; [apply (proj2 (Qabs_Qle_condition _ _)); split; lra |].
    intros _. assert (inject_Z (-1) < inject_Z (Qfloor (amount * 1000000 + half))) as H3
      by (change (inject_Z (-1)) with (-1); lra).
    rewrite <- Zlt_Qlt in H3. lia.
  - assert (Hneg : amount < 0).
    { apply Qnot_le_lt. intros H. apply Qle_bool_iff in H. congruence. }
    pose proof (Qfloor_le (- amount * 1000000 + half)) as H1.
    pose proof (Qlt_floor (- amount * 1000000 + half)) as H2.
    rewrite inject_Z_plus in H2. change (inject_Z 1) with 1 in H2.
    rewrite inject_Z_opp.
    split; [apply (proj2 (Qabs_Qle_condition _ _)); split; lra | intros; lra].
Qed.

Lemma trade_collateral_rounding_witness :
  ∃ v, trade_collateralAmount 3 (12345678 # 10000000) = Some v
       ∧ Qabs (inject_Z v - (12345678 # 10000000) * 1000000) <= 1 / 2
       ∧ (0 <= 12345678 # 10000000 → (0 ≤ v)%Z).
Proof.
  apply (trade_collateral_rounding 3 (12345678 # 10000000)). reflexivity.
Defined.

Lemma formatUnits6_scaled (n : N) : formatUnits6 n * 1000000 == inject_Z (Z.of_N n).
Proof. unfold formatUnits6. field. Qed.

(** X24. An amount with at most six decimals is sent without loss: the
    amount of [n] millionths gives exactly [n] base units, on either branch,
    for every amount up to 8,589,934,592 (2^33), that is for [n] up to
    8,589,934,592,000,000. *)
Theorem trade_collateral_round_trip (l : Q) (n : N) :
  (Z.of_N n ≤ 8589934592000000)%Z →
  trade_collateralAmount l (formatUnits6 n) = Some (Z.of_N n).
Proof.
  intros Hn.
  assert (H0 : 0 <= formatUnits6 n) by apply formatUnits6_nonneg.
  pose proof (formatUnits6_scaled n) as Hs.
  assert (Hlt : formatUnits6 n < inject_Z (10 ^ 21)).
  { assert (inject_Z (Z.of_N n) < inject_Z (10 ^ 27)) as H by (rewrite <- Zlt_Qlt; lia).
    change (inject_Z (10 ^ 27)) with (inject_Z (10 ^ 21) * 1000000) in H. lra. }
  rewrite trade_collateralAmount_eq, toFixed6_in_range by (rewrite Qabs_pos; assumption).
  apply Qle_bool_iff in H0. rewrite H0. cbn [parseUnits6]. f_equal.
  set (half := 1 / 2).
  assert (Hhalf : half + half == 1) by reflexivity.
  apply Qfloor_unique.
  - lra.
  - rewrite inject_Z_plus. change (inject_Z 1) with 1. lra.
Qed.

Lemma trade_collateral_round_trip_witness :
  trade_collateralAmount 1 (formatUnits6 12500000) = Some (Z.of_N 12500000).
Proof. apply (trade_collateral_round_trip 1 12500000). vm_compute. discriminate. Defined.

(** X25. An amount that does not parse, or that parses to zero, is replaced
    by 10: the trade goes out with 10,000,000 base units. *)
Theorem trade_default_amount (parseFloat : string → option Q) (market : Market)
    (stats : option MarketStats) (l : Q) (tradeAmount : string) (side : Side) :
  parseFloat tradeAmount = None ∨ (∃ a, parseFloat tradeAmount = Some a ∧ a == 0) →
  o_value <$> trade_request parseFloat market stats l tradeAmount side = Some 10000000%Z.
Proof.
  intros H. rewrite trade_request_value.
  assert (E : trade_amount parseFloat tradeAmount = 10).
  { unfold trade_amount. destruct H as [-> | (a & -> & Ha)]; [reflexivity |].
    apply Qeq_bool_iff in Ha. now rewrite Ha. }
  rewrite E. reflexivity.
Qed.

Lemma trade_default_amount_witness :
  o_value <$> trade_request (λ _, Some 0) (mkMarket 3 "m" "" "" 65 "") None 1 "0" NO
  = Some 10000000%Z.
Proof.
  apply (trade_default_amount (λ _, Some 0)). right. exists 0. split; reflexivity.
Defined.



(** X27. The balance in the navigation bar and the collateral on a position
    card read base units on different scales: the same number of base units
    shows as a balance that is the card's amount divided by 10^12. *)
Theorem fetchBalance_scale (getBalance : Provider → string → option N)
    (wallet : Wallet) (rest : list Wallet) (old : option Q)
    (provider : Provider) (balanceWei : N) :
  getEthereumProvider wallet = Some provider →
  getBalance provider (address wallet) = Some balanceWei →
  ∃ balanceUsdc,
    fetchBalance getBalance (wallet :: rest) old = Some balanceUsdc
    ∧ balanceUsdc * inject_Z (10 ^ 12) == formatUnits6 balanceWei.
Proof.
  intros Hprov Hbal. unfold fetchBalance. rewrite Hprov. simpl. rewrite Hbal. simpl.
  eexists. split; [reflexivity |]. unfold formatEther, formatUnits6.
  change (inject_Z (10 ^ 18)) with (inject_Z (10 ^ 12) * 1000000). field.
  discriminate.
Qed.

Lemma fetchBalance_scale_witness :
  ∃ balanceUsdc,
    fetchBalance (λ _ _, Some 10000000%N) [sample_wallet] None = Some balanceUsdc
    ∧ balanceUsdc * inject_Z (10 ^ 12) == formatUnits6 10000000.
Proof.
  apply (fetchBalance_scale (λ _ _, Some 10000000%N) sample_wallet [] None
           (mkProvider true (λ _, sample_contract)) 10000000%N); reflexivity.
Defined.

End Amounts.

(** ** The price chart *)

Section Chart.

Local Open Scope Q_scope.

Lemma Math_max_bounds (rest : list Q) (first : Q) :
  first <= Math_max first rest ∧ ∀ v, v ∈ rest → v <= Math_max first rest.
Proof.
  revert first. induction rest as [| w rest IH]; intros first; unfold Math_max in *; simpl.
  - split; [apply Qle_refl |]. intros v Hv. now apply elem_of_nil in Hv.
  - destruct (Qle_bool first w) eqn:E.
    + apply Qle_bool_iff in E. destruct (IH w) as [Hw Hrest].
      split; [lra |]. intros v Hv. apply elem_of_cons in Hv as [-> | Hv]; auto.
    + assert (w < first).
      { apply Qnot_le_lt. intros H. apply Qle_bool_iff in H. congruence. }
      destruct (IH first) as [Hf Hrest].
      split; [assumption |]. intros v Hv. apply elem_of_cons in Hv as [-> | Hv]; [lra | auto].
Qed.

Lemma Math_min_bounds (rest : list Q) (first : Q) :
  Math_min first rest <= first ∧ ∀ v, v ∈ rest → Math_min first rest <= v.
Proof.
  revert first. induction rest as [| w rest IH]; intros first; unfold Math_min in *; simpl.
  - split; [apply Qle_refl |]. intros v Hv. now apply elem_of_nil in Hv.
  - destruct (Qle_bool w first) eqn:E.
    + apply Qle_bool_iff in E. destruct (IH w) as [Hw Hrest].
      split; [lra |]. intros v Hv. apply elem_of_cons in Hv as [-> | Hv]; auto.
    + assert (first < w).
      { apply Qnot_le_lt. intros H. apply Qle_bool_iff in H. congruence. }
      destruct (IH first) as [Hf Hrest].
      split; [assumption |]. intros v Hv. apply elem_of_cons in Hv as [-> | Hv]; [lra | auto].
Qed.

(** A value between the minimum and the maximum is drawn between the bottom
    and the top padding; a flat series is drawn along the bottom. *)
Lemma chart_y_in_box (value minValue maxValue : Q) :
  minValue <= value → value <= maxValue →
  let range := if Qeq_bool (maxValue - minValue) 0 then 1 else maxValue - minValue in
  let y := chartHeight - padding - (value - minValue) / range * (chartHeight - padding * 2) in
  padding <= y ∧ y <= chartHeight - padding.
Proof.
  intros Hmin Hmax. cbv zeta. unfold chartHeight, padding.
  assert (Ht : 0 <= (value - minValue)
                    / (if Qeq_bool (maxValue - minValue) 0 then 1 else maxValue - minValue)
               ∧ (value - minValue)
                 / (if Qeq_bool (maxValue - minValue) 0 then 1 else maxValue - minValue)
                 <= 1).
  { destruct (Qeq_bool (maxValue - minValue) 0) eqn:E.
    - apply Qeq_bool_eq in E.
      assert (Hz : value - minValue == 0) by lra.
      rewrite Hz. split; [discriminate | discriminate].
    - apply Qeq_bool_neq in E.
      assert (0 < maxValue - minValue) by lra.
      split; [apply Qle_shift_div_l | apply Qle_shift_div_r]; lra. }
  destruct Ht as [Ht0 Ht1].
  set (t := (value - minValue) / _) in *. split; lra.
Qed.

(** X28. A chart of at least two values is defined and has one point per
    value; every point lies inside the padded drawing area, horizontally
    from 20 to 580 and vertically from 20 to 180. *)
Theorem chart_points_in_box (chartData : list Q) :
  (2 ≤ length chartData)%nat →
  ∃ points,
    chart_points chartData = Some points
    ∧ length points = length chartData
    ∧ ∀ x y, (x, y) ∈ points →
        padding <= x ∧ x <= chartWidth - padding
        ∧ padding <= y ∧ y <= chartHeight - padding.
Proof.
  intros Hlen. destruct chartData as [| first rest]; [simpl in Hlen; lia |].
  unfold chart_points.
  set (data := first :: rest) in *.
  assert (Hn : 1 <= inject_Z (Z.of_nat (length data)) - 1).
  { assert (inject_Z 2 <= inject_Z (Z.of_nat (length data))) as H
      by (rewrite <- Zle_Qle; lia).
    change (inject_Z 2) with 2 in H. lra. }
  rewrite js_div_defined by (intros E; lra). cbn [mbind option_bind].
  eexists. split; [reflexivity |]. split; [apply length_imap |].
  intros x y Hxy. apply elem_of_lookup_imap in Hxy as (i & value & [= -> ->] & Hi).
  pose proof (lookup_lt_Some _ _ _ Hi) as Hilt.
  assert (Hvalue : value ∈ data) by (eapply list_elem_of_lookup_2; eassumption).
  destruct (Math_max_bounds rest first) as [Hmax0 Hmax].
  destruct (Math_min_bounds rest first) as [Hmin0 Hmin].
  assert (Hv : Math_min first rest <= value ∧ value <= Math_max first rest).
  { subst data. apply elem_of_cons in Hvalue as [-> | Hvalue]; auto. }
  destruct Hv as [Hv0 Hv1].
  destruct (chart_y_in_box value _ _ Hv0 Hv1) as [Hy0 Hy1].
  assert (Hi0 : 0 <= inject_Z (Z.of_nat i))
    by (change 0 with (inject_Z 0); rewrite <- Zle_Qle; lia).
  assert (Hi' : inject_Z (Z.of_nat i) <= inject_Z (Z.of_nat (length data)) - 1).
  { assert (inject_Z (Z.of_nat i) + inject_Z 1 <= inject_Z (Z.of_nat (length data))) as H
      by (rewrite <- inject_Z_plus, <- Zle_Qle; lia).
    change (inject_Z 1) with 1 in H. lra. }
  change (S (length rest)) with (length data).
  set (n1 := inject_Z (Z.of_nat (length data)) - 1) in *.
  set (step := (chartWidth - padding * 2) / n1) in *.
  assert (Hstep0 : 0 <= step)
    by (apply Qle_shift_div_l; unfold chartWidth, padding; lra).
  assert (Hstep : n1 * step == chartWidth - padding * 2) by (unfold step; field; lra).
  assert (Hlow : 0 <= inject_Z (Z.of_nat i) * step) by now apply Qmult_le_0_compat.
  assert (Hhigh : inject_Z (Z.of_nat i) * step <= n1 * step)
    by now apply Qmult_le_compat_r.
  set (offset := inject_Z (Z.of_nat i) * step) in *.
  set (width := n1 * step) in *.
  split; [| split; [| split; assumption]]; unfold chartWidth, padding in *; lra.
Qed.

Lemma chart_points_in_box_witness :
  ∃ points,
    chart_points [65; 72; 68; 75; 70; 78; 82; 80; 85; 88; 90; 88; 92; 95; 93] = Some points
    ∧ length points = 15%nat
    ∧ ∀ x y, (x, y) ∈ points →
        padding <= x ∧ x <= chartWidth - padding
        ∧ padding <= y ∧ y <= chartHeight - padding.
Proof.
  apply (chart_points_in_box [65; 72; 68; 75; 70; 78; 82; 80; 85; 88; 90; 88; 92; 95; 93]).
  simpl. lia.
Defined.

End Chart.
